(** * Trial-generation engine (engine.js): shallow embedding and properties

    The embedding follows [src/engine.js]: JavaScript values are a small
    tagged union, objects with a dynamic key set are finite maps from property
    names to values, and [Math.random()] is an explicit stream of draws that
    is threaded through every function that consumes randomness.

    Numbers are exact rationals ([Qc]) extended with [NaN]: binary64 rounding
    and the infinities are not represented.  The [console.warn] diagnostics
    of the sampler are not represented either.

    The file has three parts: the embedding of engine.js, the predicates the
    statements use, and the lemmas and theorems. *)

From Stdlib Require Import QArith Qcanon Qround.
From stdpp Require Import base option numbers list strings gmap fin_maps.

Local Open Scope Z_scope.
Local Open Scope string_scope.

(** ** JavaScript values *)

Inductive jsval : Type :=
  | VUndefined
  | VNull
  | VNum (q : Qc)
  | VNaN
  | VStr (s : string).

Global Instance jsval_eq_dec : EqDecision jsval.
Proof. solve_decision. Defined.

Definition num (z : Z) : jsval := VNum (Qc_of_Z z).

(** [ToNumber]: [None] stands for NaN.  A string in a numeric position
    would go through JavaScript's string-to-number parser, which no field of
    this program exercises; the embedding maps it to NaN. *)
Definition to_number (v : jsval) : option Qc :=
  match v with
  | VUndefined => None
  | VNull => Some (Qc_of_Z 0)
  | VNum q => Some q
  | VNaN => None
  | VStr _ => None
  end.

Definition of_number (o : option Qc) : jsval :=
  match o with
  | Some q => VNum q
  | None => VNaN
  end.

Definition js_add (a b : jsval) : jsval :=
  of_number (x ← to_number a; y ← to_number b; Some (x + y)%Qc).

Definition js_sub (a b : jsval) : jsval :=
  of_number (x ← to_number a; y ← to_number b; Some (x - y)%Qc).

Definition js_mul (a b : jsval) : jsval :=
  of_number (x ← to_number a; y ← to_number b; Some (x * y)%Qc).

(** [a < b] and [a > b] on numbers; any comparison with NaN is false. *)
Definition js_lt (a b : jsval) : bool :=
  match to_number a, to_number b with
  | Some x, Some y => bool_decide (x < y)%Qc
  | _, _ => false
  end.

Definition js_gt (a b : jsval) : bool := js_lt b a.

(** Strict equality [a === b]; [NaN === NaN] is false. *)
Definition js_seq (a b : jsval) : bool :=
  match a, b with
  | VNaN, _ | _, VNaN => false
  | _, _ => bool_decide (a = b)
  end.

(** Nullish coalescing [a ?? b]. *)
Definition js_nullish (a b : jsval) : jsval :=
  match a with
  | VUndefined | VNull => b
  | _ => a
  end.

(** ** Objects

    [obj] is a JavaScript object used as a record with a dynamic key set:
    reading an absent property yields [undefined]. *)

Abbreviation obj := (gmap string jsval).

Definition get (o : obj) (k : string) : jsval := default VUndefined (o !! k).

(** [{...a, ...b}]: properties of [b] override those of [a]. *)
Definition spread (a b : obj) : obj := b ∪ a.

(** ** Utility *)

Definition switchTask (task : jsval) : jsval :=
  if js_seq task (VStr "mov") then VStr "or" else VStr "mov".

(** ** Records of the data model

    Each record lives in a module of its own, so that fields keep the names
    they have in the source. *)

(** The four-slot record shared by [spec.coherence], [spec.dir] and the
    result of [assignDirections].  A slot that is absent in the JavaScript
    object reads as [VUndefined]. *)
Record Quad : Type := mkQuad {
  ch1_task : jsval;
  ch1_distractor : jsval;
  ch2_task : jsval;
  ch2_distractor : jsval
}.

Module Distribution.
Record t : Type := mk {
  type : string;
  value : jsval;
  params : option (list Qc)
}.
End Distribution.

Module TrialSpec.
Record t : Type := mk {
  task1 : jsval;
  task2 : jsval;
  csi : jsval;
  dur_ch1 : jsval;
  dur_ch2 : jsval;
  soa : jsval;
  responseWindow : jsval;
  coherence : Quad;
  dir : Quad
}.
End TrialSpec.

Module Congruency.
Record t : Type := mk {
  conditions : list string;
  proportions : list Qc
}.
End Congruency.

Module BlockConfig.
Record t : Type := mk {
  blockId : jsval;
  blockType : jsval;
  paradigm : string;
  task1 : jsval;
  task2 : jsval;
  sequenceType : string;
  switchRate : Qc;
  startTask : jsval;
  csi : jsval;
  stimulusDuration : jsval;
  responseWindow : jsval;
  rso : jsval;
  coherence : Quad;
  congruency : Congruency.t;
  iti : Distribution.t;
  soa : Distribution.t
}.
End BlockConfig.

Module Meta.
Record t : Type := mk {
  trialNumber : jsval;
  blockId : jsval;
  blockType : jsval;
  paradigm : jsval;
  task : jsval;
  task2 : jsval;
  transitionType : jsval;
  congruency : jsval;
  previousCongruency : jsval;
  iti : jsval;
  soa : jsval;
  primaryDirection : jsval;
  distractorDirection : jsval;
  ch2Direction : jsval
}.
End Meta.

Record Trial : Type := mkTrial {
  seParams : obj;
  meta : Meta.t
}.

(** ** SE parameter builders *)

Definition buildCoherenceParams (spec : TrialSpec.t) : obj :=
  let coherence := TrialSpec.coherence spec in
  let coherenceParams : obj :=
    if js_seq (TrialSpec.task1 spec) (VStr "mov") then
      <["coh_or_1" := ch1_distractor coherence]>
        (<["coh_mov_1" := ch1_task coherence]> ∅)
    else if js_seq (TrialSpec.task1 spec) (VStr "or") then
      <["coh_mov_1" := ch1_distractor coherence]>
        (<["coh_or_1" := ch1_task coherence]> ∅)
    else ∅ in
  if negb (js_seq (TrialSpec.task2 spec) VNull) then
    if js_seq (TrialSpec.task2 spec) (VStr "mov") then
      <["coh_or_2" := ch2_distractor coherence]>
        (<["coh_mov_2" := ch2_task coherence]> coherenceParams)
    else if js_seq (TrialSpec.task2 spec) (VStr "or") then
      <["coh_mov_2" := ch2_distractor coherence]>
        (<["coh_or_2" := ch2_task coherence]> coherenceParams)
    else coherenceParams
  else
    <["coh_or_2" := num 0]> (<["coh_mov_2" := num 0]> coherenceParams).

Definition buildDirectionParams (spec : TrialSpec.t) : obj :=
  let dir := TrialSpec.dir spec in
  let directionParams : obj :=
    if js_seq (TrialSpec.task1 spec) (VStr "mov") then
      <["dir_or_1" := ch1_distractor dir]>
        (<["dir_mov_1" := ch1_task dir]> ∅)
    else if js_seq (TrialSpec.task1 spec) (VStr "or") then
      <["dir_mov_1" := ch1_distractor dir]>
        (<["dir_or_1" := ch1_task dir]> ∅)
    else ∅ in
  if negb (js_seq (TrialSpec.task2 spec) VNull) then
    if js_seq (TrialSpec.task2 spec) (VStr "mov") then
      <["dir_or_2" := ch2_distractor dir]>
        (<["dir_mov_2" := ch2_task dir]> directionParams)
    else if js_seq (TrialSpec.task2 spec) (VStr "or") then
      <["dir_mov_2" := ch2_distractor dir]>
        (<["dir_or_2" := ch2_task dir]> directionParams)
    else directionParams
  else
    <["dir_or_2" := num 0]> (<["dir_mov_2" := num 0]> directionParams).

Definition buildTimingParams (spec : TrialSpec.t) : obj :=
  let csi := TrialSpec.csi spec in
  let soa := TrialSpec.soa spec in
  let dur_ch1 := TrialSpec.dur_ch1 spec in
  let dur_ch2 := TrialSpec.dur_ch2 spec in
  let responseWindow := TrialSpec.responseWindow spec in
  let timingParams : obj :=
    <["dur_or_1" := dur_ch1]>
    (<["start_or_1" := csi]>
    (<["dur_mov_1" := dur_ch1]>
    (<["start_mov_1" := csi]>
    (<["dur_go_1" := responseWindow]>
    (<["start_go_1" := csi]>
    (<["dur_1" := js_add csi dur_ch1]>
    (<["start_1" := num 0]> ∅))))))) in
  if negb (js_seq (TrialSpec.task2 spec) VNull) then
    let ch2RelativeOffset := js_sub soa dur_ch1 in
    <["dur_or_2" := dur_ch2]>
    (<["start_or_2" := ch2RelativeOffset]>
    (<["dur_mov_2" := dur_ch2]>
    (<["start_mov_2" := ch2RelativeOffset]>
    (<["dur_go_2" := responseWindow]>
    (<["start_go_2" := js_add csi soa]>
    (<["dur_2" := dur_ch2]>
    (<["start_2" := js_add csi soa]> timingParams)))))))
  else
    <["dur_or_2" := num 0]>
    (<["start_or_2" := num 0]>
    (<["dur_mov_2" := num 0]>
    (<["start_mov_2" := num 0]>
    (<["dur_go_2" := num 0]>
    (<["start_go_2" := num 0]>
    (<["dur_2" := num 0]>
    (<["start_2" := num 0]> timingParams))))))).

(** [if (params.coh === 0) { params.start = 0; params.dur = 0; }] *)
Definition silence (coh start dur : string) (params : obj) : obj :=
  if js_seq (get params coh) (num 0) then
    <[dur := num 0]> (<[start := num 0]> params)
  else params.

(** [if (params.dur > 0) { params.start = desiredCh2Start - end1; }] *)
Definition recompute (dur start : string) (desiredCh2Start end1 : jsval)
    (params : obj) : obj :=
  if js_gt (get params dur) (num 0) then
    <[start := js_sub desiredCh2Start end1]> params
  else params.

(** The object literal that opens [buildTrialParams]. *)
Definition routedParams (spec : TrialSpec.t) : obj :=
  spread
    (spread
      (spread
        (<["task_2" := TrialSpec.task2 spec]>
          (<["task_1" := TrialSpec.task1 spec]> ∅))
        (buildTimingParams spec))
      (buildCoherenceParams spec))
    (buildDirectionParams spec).

Definition silencedParams (spec : TrialSpec.t) : obj :=
  silence "coh_or_2" "start_or_2" "dur_or_2"
    (silence "coh_mov_2" "start_mov_2" "dur_mov_2"
      (silence "coh_or_1" "start_or_1" "dur_or_1"
        (silence "coh_mov_1" "start_mov_1" "dur_mov_1"
          (routedParams spec)))).

Definition buildTrialParams (spec : TrialSpec.t) : obj :=
  let params := silencedParams spec in
  if negb (js_seq (TrialSpec.task2 spec) VNull) then
    let mov1End := js_add (get params "start_mov_1") (get params "dur_mov_1") in
    let or1End := js_add (get params "start_or_1") (get params "dur_or_1") in
    let desiredCh2Start := js_add (TrialSpec.csi spec) (TrialSpec.soa spec) in
    recompute "dur_or_2" "start_or_2" desiredCh2Start or1End
      (recompute "dur_mov_2" "start_mov_2" desiredCh2Start mov1End params)
  else params.

(** The earlier draft of [buildTrialParams] kept at the end of engine.js: it
    takes the channel directions as [dir_1]/[dir_2], documents [dir_1] as
    required and throws when it is [undefined] or [null]. *)
Definition buildTrialParams_draft (task1 csi stimulusDuration dir_1 : jsval)
    : string + obj :=
  match dir_1 with
  | VUndefined | VNull => inl "buildTrialParams: dir_1 is required"
  | _ =>
      inr (<["dur_1" := js_add csi stimulusDuration]>
          (<["start_1" := num 0]>
          (<["task_1" := task1]> ∅)))
  end.

(** ** Randomness and exceptions

    [Math.random()] is a stream of draws; a computation reads the head of the
    stream and passes the tail on.  A computation either returns a result
    together with the remaining stream or throws an [Error] with a message. *)

Definition rng : Type := nat → Qc.

Inductive result (A : Type) : Type :=
  | Ok (a : A)
  | Throw (msg : string).
Arguments Ok {A} a.
Arguments Throw {A} msg.

Definition gen (A : Type) : Type := rng → result (A * rng).

Global Instance gen_ret : MRet gen := λ A a r, Ok (a, r).
Global Instance gen_bind : MBind gen := λ A B f m r,
  match m r with
  | Ok (a, r') => f a r'
  | Throw msg => Throw msg
  end.

Definition throw {A : Type} (msg : string) : gen A := λ _, Throw msg.

(** The stream after its first draw. *)
Definition tail (r : rng) : rng := λ i, r (S i).

(** [Math.random()] *)
Definition random : gen Qc := λ r, Ok (r 0%nat, tail r).

(** The contract of [Math.random()]: every draw lies in [0, 1). *)
Definition unit_rng (r : rng) : Prop := ∀ i, (0 ≤ r i < 1)%Qc.

Definition half : Qc := Q2Qc (1 # 2).

(** [Math.random() < 0.5 ? a : b] *)
Definition coin {A : Type} (a b : A) : gen A :=
  r ← random; mret (if bool_decide (r < half)%Qc then a else b).

(** ** Arrays *)

(** [a[i]] for a numeric index: out of range reads [undefined]. *)
Definition arr_get {A : Type} (inj : A → jsval) (a : list A) (i : Z) : jsval :=
  if bool_decide (0 ≤ i)%Z then
    match a !! Z.to_nat i with
    | Some x => inj x
    | None => VUndefined
    end
  else VUndefined.

Definition qmin (x y : Qc) : Qc := if bool_decide (x ≤ y)%Qc then x else y.
Definition qmax (x y : Qc) : Qc := if bool_decide (x ≤ y)%Qc then y else x.

(** [Math.min] and [Math.max] of two arguments. *)
Definition js_min (a b : jsval) : jsval :=
  of_number (x ← to_number a; y ← to_number b; Some (qmin x y)).

Definition js_max (a b : jsval) : jsval :=
  of_number (x ← to_number a; y ← to_number b; Some (qmax x y)).

(** [Math.round]: halves round towards +infinity. *)
Definition js_round (a : jsval) : jsval :=
  of_number ((λ x : Qc, Qc_of_Z (Qfloor (x + half)%Qc)) <$> to_number a).

(** ** Distribution sampler *)

Definition sampleFromDistribution (config : Distribution.t) : gen jsval :=
  if bool_decide (Distribution.type config = "fixed") then
    mret (Distribution.value config)
  else if bool_decide (Distribution.type config = "uniform") then
    match Distribution.params config with
    | None => mret (Distribution.value config)
    | Some params =>
        if bool_decide (length params < 2)%nat then
          mret (Distribution.value config)
        else
          let min := js_min (arr_get VNum params 0) (arr_get VNum params 1) in
          let max := js_max (arr_get VNum params 0) (arr_get VNum params 1) in
          r ← random;
          mret (js_add min (js_mul (VNum r) (js_sub max min)))
    end
  else if bool_decide (Distribution.type config = "choice") then
    match Distribution.params config with
    | None => mret (Distribution.value config)
    | Some params =>
        if bool_decide (length params = 0)%nat then
          mret (Distribution.value config)
        else
          r ← random;
          mret (arr_get VNum params
                  (Qfloor (r * Qc_of_Z (Z.of_nat (length params)))%Qc))
    end
  else
    throw ("sampleFromDistribution: unknown type '"
             +:+ Distribution.type config +:+ "'").

(** ** Sequence generators *)

(** Body of the [Random] loop, from index [i], for [k] more iterations. *)
Fixpoint randomLoop (k : nat) (switchRate : Qc) (i : nat)
    (sequence : list jsval) : gen (list jsval) :=
  match k with
  | O => mret sequence
  | S k' =>
      let prev := arr_get id sequence (Z.of_nat i - 1) in
      r ← random;
      randomLoop k' switchRate (S i)
        (sequence ++ [if bool_decide (r < switchRate / Qc_of_Z 100)%Qc
                      then switchTask prev else prev])
  end.

(** Body of the [AABB] loop, from index [i], for [k] more iterations. *)
Fixpoint aabbLoop (k : nat) (i : nat) (sequence : list jsval) : list jsval :=
  match k with
  | O => sequence
  | S k' =>
      let prev := arr_get id sequence (Z.of_nat i - 1) in
      aabbLoop k' (S i)
        (sequence ++ [if bool_decide (Z.of_nat i mod 2 = 0)%Z
                      then switchTask prev else prev])
  end.

Definition generateTaskSequence (numTrials : Z) (sequenceType : string)
    (switchRate : Qc) (startTask : jsval) : gen (list jsval) :=
  firstTask ← match startTask with
              | VUndefined | VNull => coin (VStr "mov") (VStr "or")
              | _ => mret startTask
              end;
  let sequence := [firstTask] in
  if bool_decide (sequenceType = "Random") then
    randomLoop (Z.to_nat (numTrials - 1)) switchRate 1 sequence
  else if bool_decide (sequenceType = "AABB") then
    mret (aabbLoop (Z.to_nat (numTrials - 1)) 1 sequence)
  else
    throw ("Unknown sequenceType: " +:+ sequenceType).

Definition classifyTransitions (taskSequence : list jsval) : list jsval :=
  imap (λ i task,
          if bool_decide (i = 0)%nat then VStr "First"
          else if js_seq task (arr_get id taskSequence (Z.of_nat i - 1))
               then VStr "Repeat" else VStr "Switch")
       taskSequence.

(** Number of iterations of [for (let j = 0; j < count; j++)]. *)
Definition iterations (count : jsval) : nat :=
  match to_number count with
  | Some c => Z.to_nat (Qceiling c)
  | None => 0
  end.

(** The counting loop of [generateCongruencySequence]: [rest] holds
    [conditions[i]], [conditions[i+1]], ... and [len] is
    [conditions.length]. *)
Fixpoint assignLoop (numTrials : jsval) (proportions : list Qc) (len : nat)
    (i : nat) (rest : list string) (sequence : list string)
    (assigned : jsval) : list string :=
  match rest with
  | [] => sequence
  | condition :: rest' =>
      let count :=
        if bool_decide (Z.of_nat i = Z.of_nat len - 1)%Z
        then js_sub numTrials assigned
        else js_round (js_mul numTrials
                         (arr_get VNum proportions (Z.of_nat i))) in
      assignLoop numTrials proportions len (S i) rest'
        (sequence ++ replicate (iterations count) condition)
        (js_add assigned count)
  end.

(** [[a[i], a[j]] = [a[j], a[i]]].  With draws in [0, 1) the index [j] lies
    in [0, i], so both positions exist. *)
Definition swap (sequence : list string) (i : nat) (j : Z) : list string :=
  match sequence !! i, sequence !! Z.to_nat j with
  | Some xi, Some xj => <[Z.to_nat j := xi]> (<[i := xj]> sequence)
  | _, _ => sequence
  end.

(** Fisher-Yates: [for (let i = k; i > 0; i--)]. *)
Fixpoint shuffleLoop (i : nat) (sequence : list string) : gen (list string) :=
  match i with
  | O => mret sequence
  | S i' =>
      r ← random;
      let j := Qfloor (r * Qc_of_Z (Z.of_nat i + 1))%Qc in
      shuffleLoop i' (swap sequence i j)
  end.

Definition generateCongruencySequence (numTrials : Z)
    (conditions : list string) (proportions : list Qc) : gen (list string) :=
  let sequence :=
    assignLoop (num numTrials) proportions (length conditions) 0 conditions
      [] (num 0) in
  shuffleLoop (length sequence - 1) sequence.

(** ** Direction assignment *)

Definition assignDirections (task congruency : jsval) (paradigm : string)
    (rso : jsval) : gen Quad :=
  if bool_decide (paradigm = "dual-task") then
    ch1Dir ← coin (num 0) (num 180);
    ch2Dir ← coin (num 0) (num 180);
    mret (mkQuad ch1Dir (num 0) ch2Dir (num 0))
  else
    primaryDir ← coin (num 0) (num 180);
    distractorDir ←
      (if js_seq congruency (VStr "congruent") then mret primaryDir
       else if js_seq congruency (VStr "incongruent") then
         mret (if js_seq primaryDir (num 0) then num 180 else num 0)
       else if js_seq congruency (VStr "neutral") then
         coin (num 90) (num 270)
       else mret (num 0));
    mret (mkQuad primaryDir distractorDir (num 0) (num 0)).

(** ** Block trial generation *)

(** One iteration of the trial loop of [generateBlockTrials]. *)
Definition assembleTrial (blockConfig : BlockConfig.t)
    (taskSequence transitions : list jsval) (congruencySequence : list string)
    (i : nat) : gen Trial :=
  let isDualTask := bool_decide (BlockConfig.paradigm blockConfig = "dual-task") in
  let task1 := arr_get id taskSequence (Z.of_nat i) in
  let task2 :=
    if isDualTask then switchTask (arr_get id taskSequence (Z.of_nat i))
    else VNull in
  let congruency := arr_get VStr congruencySequence (Z.of_nat i) in
  let previousCongruency :=
    if bool_decide (0 < i)%nat
    then arr_get VStr congruencySequence (Z.of_nat i - 1) else VNull in
  iti ← sampleFromDistribution (BlockConfig.iti blockConfig);
  soa ← (if isDualTask then sampleFromDistribution (BlockConfig.soa blockConfig)
         else mret VNull);
  dir ← assignDirections task1 congruency (BlockConfig.paradigm blockConfig)
          (BlockConfig.rso blockConfig);
  let spec :=
    TrialSpec.mk task1 task2
      (BlockConfig.csi blockConfig)
      (BlockConfig.stimulusDuration blockConfig)
      (if isDualTask then BlockConfig.stimulusDuration blockConfig else num 0)
      (js_nullish soa (num 0))
      (BlockConfig.responseWindow blockConfig)
      (BlockConfig.coherence blockConfig)
      dir in
  let seParams := buildTrialParams spec in
  let meta :=
    Meta.mk
      (num (Z.of_nat i + 1))
      (BlockConfig.blockId blockConfig)
      (BlockConfig.blockType blockConfig)
      (VStr (BlockConfig.paradigm blockConfig))
      task1
      task2
      (arr_get id transitions (Z.of_nat i))
      congruency
      previousCongruency
      iti
      soa
      (ch1_task dir)
      (if js_seq congruency (VStr "univalent") then VNull
       else ch1_distractor dir)
      (if isDualTask then ch2_task dir else VNull) in
  mret (mkTrial seParams meta).

(** [for (let i = ...; i < numTrials; i++) { ...; trials.push(...) }],
    from index [i], for [k] more iterations. *)
Fixpoint trialLoop (blockConfig : BlockConfig.t)
    (taskSequence transitions : list jsval) (congruencySequence : list string)
    (k : nat) (i : nat) (trials : list Trial) : gen (list Trial) :=
  match k with
  | O => mret trials
  | S k' =>
      trial ← assembleTrial blockConfig taskSequence transitions
                congruencySequence i;
      trialLoop blockConfig taskSequence transitions congruencySequence
        k' (S i) (trials ++ [trial])
  end.

Definition generateBlockTrials (blockConfig : BlockConfig.t) (numTrials : Z)
    : gen (list Trial) :=
  let isDualTask := bool_decide (BlockConfig.paradigm blockConfig = "dual-task") in
  taskSequence ←
    (if isDualTask then
       generateTaskSequence numTrials
         (BlockConfig.sequenceType blockConfig)
         (BlockConfig.switchRate blockConfig)
         (BlockConfig.task1 blockConfig)
     else
       generateTaskSequence numTrials
         (BlockConfig.sequenceType blockConfig)
         (BlockConfig.switchRate blockConfig)
         (BlockConfig.startTask blockConfig));
  let transitions := classifyTransitions taskSequence in
  congruencySequence ←
    generateCongruencySequence numTrials
      (Congruency.conditions (BlockConfig.congruency blockConfig))
      (Congruency.proportions (BlockConfig.congruency blockConfig));
  trialLoop blockConfig taskSequence transitions congruencySequence
    (Z.to_nat numTrials) 0 [].

(** ** The configurations of the test suite (test_engine.js) *)

Definition frac (n : Z) (d : positive) : jsval := VNum (Q2Qc (n # d)).

Definition dualSpec : TrialSpec.t :=
  TrialSpec.mk (VStr "mov") (VStr "or") (num 200) (num 300) (num 300)
    (num 100) (num 2000)
    (mkQuad (frac 8 10) (num 0) (frac 6 10) (num 0))
    (mkQuad (num 180) (num 0) (num 0) (num 0)).

Definition singleSpec : TrialSpec.t :=
  TrialSpec.mk (VStr "mov") VNull (num 200) (num 300) (num 0)
    (num 0) (num 2000)
    (mkQuad (frac 8 10) (num 0) (num 0) (num 0))
    (mkQuad (num 0) (num 0) (num 0) (num 0)).

Definition dualSwappedSpec : TrialSpec.t :=
  TrialSpec.mk (VStr "or") (VStr "mov") (num 200) (num 300) (num 300)
    (num 400) (num 2000)
    (mkQuad (frac 8 10) (num 0) (frac 6 10) (num 0))
    (mkQuad (num 0) (num 0) (num 180) (num 0)).

Definition dualBivalentSpec : TrialSpec.t :=
  TrialSpec.mk (VStr "mov") (VStr "or") (num 200) (num 300) (num 300)
    (num 100) (num 2000)
    (mkQuad (frac 8 10) (frac 8 10) (frac 6 10) (num 0))
    (mkQuad (num 180) (num 180) (num 0) (num 0)).

Definition prpConfig : BlockConfig.t :=
  BlockConfig.mk (VStr "hirsch_prp") (VStr "prp") "dual-task"
    (VStr "mov") (VStr "or") "Random" (Qc_of_Z 50) VNull
    (num 200) (num 300) (num 2000) (VStr "identical")
    (mkQuad (frac 8 10) (num 0) (frac 6 10) (num 0))
    (Congruency.mk ["univalent"] [Qc_of_Z 1])
    (Distribution.mk "uniform" (num 500) (Some [Qc_of_Z 400; Qc_of_Z 600]))
    (Distribution.mk "choice" (num 100)
       (Some (Qc_of_Z <$> [50; 100; 200; 400; 600; 1000]))).

Definition pureConfig : BlockConfig.t :=
  BlockConfig.mk (VStr "hirsch_pure_mov") (VStr "pure") "single-task"
    (VStr "mov") VNull "Random" (Qc_of_Z 0) (VStr "mov")
    (num 200) (num 300) (num 2000) (VStr "identical")
    (mkQuad (frac 8 10) (num 0) (num 0) (num 0))
    (Congruency.mk ["univalent"] [Qc_of_Z 1])
    (Distribution.mk "fixed" (num 500) (Some []))
    (Distribution.mk "fixed" (num 0) (Some [])).

(** A stream of draws that cycles through 1/4, 3/4, 0, 1/2. *)
Definition cycle_rng : rng := λ i,
  match (i mod 4)%nat with
  | 0%nat => Q2Qc (1 # 4)
  | 1%nat => Q2Qc (3 # 4)
  | 2%nat => Q2Qc 0
  | _ => half
  end.

(** ** Response extraction (session.js)

    [extractResponse] reads the key presses that the presentation engine
    recorded for one trial.  A key press carries its time in ms and whether
    the key matched the active go signal. *)

Module KeyPress.
Record t : Type := mk {
  isCorrect : bool;
  time : Qc
}.
End KeyPress.

Module Response.
Record t : Type := mk {
  rt1_raw : jsval;
  rt1 : jsval;
  accuracy1 : jsval;
  rt2_raw : jsval;
  rt2 : jsval;
  accuracy2 : jsval;
  rawKeyPresses : string
}.
End Response.

(** The local variables of [extractResponse] that its loop updates. *)
Module Tally.
Record t : Type := mk {
  rt1_raw : jsval;
  rt2_raw : jsval;
  accuracy1 : jsval;
  accuracy2 : jsval;
  hadError1 : bool
}.
End Tally.

(** One iteration of [for (const kp of keyPresses)]. *)
Definition tallyPress (isDualTask : bool) (tally : Tally.t)
    (kp : KeyPress.t) : Tally.t :=
  if KeyPress.isCorrect kp then
    if js_seq (Tally.rt1_raw tally) VNull then
      Tally.mk (VNum (KeyPress.time kp)) (Tally.rt2_raw tally)
        (if Tally.hadError1 tally then VStr "corrected" else VStr "correct")
        (Tally.accuracy2 tally) (Tally.hadError1 tally)
    else if isDualTask && js_seq (Tally.rt2_raw tally) VNull then
      Tally.mk (Tally.rt1_raw tally) (VNum (KeyPress.time kp))
        (Tally.accuracy1 tally) (VStr "correct") (Tally.hadError1 tally)
    else tally
  else
    if js_seq (Tally.rt1_raw tally) VNull then
      Tally.mk (Tally.rt1_raw tally) (Tally.rt2_raw tally)
        (VStr "error") (Tally.accuracy2 tally) true
    else if isDualTask && js_seq (Tally.rt2_raw tally) VNull then
      Tally.mk (Tally.rt1_raw tally) (Tally.rt2_raw tally)
        (Tally.accuracy1 tally) (VStr "error") (Tally.hadError1 tally)
    else tally.

Definition tallyStart (isDualTask : bool) : Tally.t :=
  Tally.mk VNull VNull (VStr "miss")
    (if isDualTask then VStr "miss" else VNull) false.

Section extraction.
(** [JSON.stringify] on the key presses, left abstract. *)
Context (stringify : list KeyPress.t → string).

(** [keyPresses] is [data.keyPresses], [None] when the property is absent. *)
Definition extractResponse (keyPresses : option (list KeyPress.t))
    (trial : Trial) : Response.t :=
  let keyPresses := default [] keyPresses in
  let isDualTask := js_seq (Meta.paradigm (meta trial)) (VStr "dual-task") in
  let tally := fold_left (tallyPress isDualTask) keyPresses
                 (tallyStart isDualTask) in
  let rt1 :=
    if negb (js_seq (Tally.rt1_raw tally) VNull)
    then js_sub (Tally.rt1_raw tally) (get (seParams trial) "start_go_1")
    else VNull in
  let rt2 :=
    if isDualTask && negb (js_seq (Tally.rt2_raw tally) VNull)
    then js_sub (Tally.rt2_raw tally) (get (seParams trial) "start_go_2")
    else VNull in
  Response.mk (Tally.rt1_raw tally) rt1 (Tally.accuracy1 tally)
    (Tally.rt2_raw tally) rt2 (Tally.accuracy2 tally)
    (stringify keyPresses).
End extraction.

(** * Predicates used in the statements *)

(** A value that is a number other than NaN. *)
Definition numeric (v : jsval) : Prop := ∃ q, v = VNum q.

(** The two perceptual dimensions and the two channels. *)
Inductive dimension : Type := Mov | Ori.
Inductive channel : Type := Ch1 | Ch2.

Definition dimension_name (d : dimension) : string :=
  match d with Mov => "mov" | Ori => "or" end.

Definition channel_name (c : channel) : string :=
  match c with Ch1 => "1" | Ch2 => "2" end.

(** The property name [prefix_dim_channel], for instance [start_or_2]. *)
Definition field (prefix : string) (d : dimension) (c : channel) : string :=
  prefix +:+ "_" +:+ dimension_name d +:+ "_" +:+ channel_name c.

(** The two task identities. *)
Definition is_task (v : jsval) : Prop := v = VStr "mov" ∨ v = VStr "or".

(** A field is defined when it is neither [undefined] nor [NaN]. *)
Definition defined (v : jsval) : Prop := v ≠ VUndefined ∧ v ≠ VNaN.

Definition numeric_quad (q : Quad) : Prop :=
  numeric (ch1_task q) ∧ numeric (ch1_distractor q)
  ∧ numeric (ch2_task q) ∧ numeric (ch2_distractor q).

(** All timing, coherence and direction inputs are present as numbers. *)
Definition numeric_inputs (spec : TrialSpec.t) : Prop :=
  numeric (TrialSpec.csi spec)
  ∧ numeric (TrialSpec.dur_ch1 spec)
  ∧ numeric (TrialSpec.dur_ch2 spec)
  ∧ numeric (TrialSpec.soa spec)
  ∧ numeric (TrialSpec.responseWindow spec)
  ∧ numeric_quad (TrialSpec.coherence spec)
  ∧ numeric_quad (TrialSpec.dir spec).

(** [params] is missing or has fewer than [n] elements. *)
Definition short (n : nat) (params : option (list Qc)) : Prop :=
  match params with
  | None => True
  | Some ps => (length ps < n)%nat
  end.

(** The distribution types that [sampleFromDistribution] handles. *)
Definition known_type (t : string) : Prop :=
  t = "fixed" ∨ t = "uniform" ∨ t = "choice".

(** The two directions of the primary axis. *)
Definition horizontal (v : jsval) : Prop := v = num 0 ∨ v = num 180.

(** The first element is [startTask] when it is given and a coin flip
    otherwise. *)
Definition firstTask (startTask : jsval) (r : rng) : jsval * rng :=
  match startTask with
  | VUndefined | VNull =>
      (if bool_decide (r 0%nat < half)%Qc then VStr "mov" else VStr "or",
       tail r)
  | _ => (startTask, r)
  end.

(** The element of the run-length-2 pattern at position [i]: the first task
    when [floor(i / 2)] is even, the other task when it is odd. *)
Definition aabb_at (first : jsval) (i : nat) : jsval :=
  if bool_decide ((Z.of_nat i / 2) mod 2 = 0)%Z then first
  else switchTask first.

Definition quarter : Qc := Q2Qc (1 # 4).

(** [Math.round(numTrials * p)] as an integer. *)
Definition rounded (numTrials : Z) (p : Qc) : Z :=
  Qfloor (Qc_of_Z numTrials * p + half)%Qc.

(** The [k] conditions from index [i] on have a proportion, their rounded
    counts are not negative, and together with the [assigned] labels they do
    not exceed [numTrials]. *)
Fixpoint fits (numTrials : Z) (proportions : list Qc) (i k : nat)
    (assigned : Z) : Prop :=
  match k with
  | O => (assigned ≤ numTrials)%Z
  | S k' =>
      ∃ p, proportions !! i = Some p
           ∧ (0 ≤ rounded numTrials p)%Z
           ∧ fits numTrials proportions (S i) k'
               (assigned + rounded numTrials p)
  end.

(** [r'] is what remains of [r] after some draws. *)
Definition suffix (r r' : rng) : Prop := ∃ k, ∀ i, r' i = r (k + i)%nat.

(** A computation that only reads draws from the front of the stream. *)
Definition streaming {A : Type} (m : gen A) : Prop :=
  ∀ r a r', m r = Ok (a, r') → suffix r r'.

(** A dual-task trial: [task2] is the other task, in the metadata and in
    the SE parameters. *)
Definition complementary (t : Trial) : Prop :=
  Meta.task2 (meta t) = switchTask (Meta.task (meta t))
  ∧ get (seParams t) "task_2" = switchTask (get (seParams t) "task_1").

(** The SOA in the metadata is one of the numbers [ps]. *)
Definition soa_among (ps : list Qc) (t : Trial) : Prop :=
  ∃ x, Meta.soa (meta t) = VNum x ∧ x ∈ ps.

(** A single-task or mixed trial: no second task and no SOA. *)
Definition single (t : Trial) : Prop :=
  Meta.task2 (meta t) = VNull
  ∧ get (seParams t) "task_2" = VNull
  ∧ Meta.soa (meta t) = VNull.

(** A computation that never throws. *)
Definition returns {A : Type} (m : gen A) : Prop :=
  ∀ r, ∃ a r', m r = Ok (a, r').

(** A block configuration whose sequence type and distribution types are
    among those the engine knows. *)
Definition known_config (blockConfig : BlockConfig.t) : Prop :=
  (BlockConfig.sequenceType blockConfig = "Random"
   ∨ BlockConfig.sequenceType blockConfig = "AABB")
  ∧ known_type (Distribution.type (BlockConfig.iti blockConfig))
  ∧ (BlockConfig.paradigm blockConfig = "dual-task" →
     known_type (Distribution.type (BlockConfig.soa blockConfig))).

(** The other perceptual dimension. *)
Definition other (d : dimension) : dimension :=
  match d with Mov => Ori | Ori => Mov end.

(** The task assigned to a channel, and the two slots of a [Quad] that
    belong to the channel. *)
Definition channel_task (spec : TrialSpec.t) (c : channel) : jsval :=
  match c with Ch1 => TrialSpec.task1 spec | Ch2 => TrialSpec.task2 spec end.

Definition task_slot (q : Quad) (c : channel) : jsval :=
  match c with Ch1 => ch1_task q | Ch2 => ch2_task q end.

Definition distractor_slot (q : Quad) (c : channel) : jsval :=
  match c with Ch1 => ch1_distractor q | Ch2 => ch2_distractor q end.

(** The labels before shuffling, as the assignment policy words it: every
    condition but the last gets [round(numTrials * proportion)] labels (none
    when that is negative) and the last one gets what remains of [numTrials]
    after the [assigned] ones. *)
Fixpoint layout (numTrials : Z) (conditions : list string)
    (proportions : list Qc) (assigned : Z) : list string :=
  match conditions, proportions with
  | [], _ => []
  | [condition], _ => replicate (Z.to_nat (numTrials - assigned)) condition
  | condition :: conditions', p :: proportions' =>
      replicate (Z.to_nat (rounded numTrials p)) condition
      ++ layout numTrials conditions' proportions'
           (assigned + rounded numTrials p)
  | _ :: _, [] => []
  end.

(** A key press that did not match the active go signal. *)
Definition wrong (kp : KeyPress.t) : Prop := KeyPress.isCorrect kp = false.

(** * Properties *)

(** ** Values *)

Lemma js_seq_true a b : js_seq a b = true → a = b.
Proof.
  destruct a, b; unfold js_seq; intros H; try discriminate H;
    by apply bool_decide_eq_true in H.
Qed.

Lemma js_seq_num a z : js_seq a (num z) = true ↔ a = num z.
Proof.
  split; [apply js_seq_true|]. intros ->. by apply bool_decide_eq_true.
Qed.

Lemma js_add_sub_cancel d e :
  numeric d → numeric e → js_add (js_sub d e) e = d.
Proof.
  intros [x ->] [y ->]. unfold js_add, js_sub. cbn. f_equal. ring.
Qed.

Lemma numeric_add a b : numeric a → numeric b → numeric (js_add a b).
Proof. intros [x ->] [y ->]. by eexists. Qed.

Lemma numeric_num z : numeric (num z).
Proof. by eexists. Qed.

(** ** Objects *)

Lemma get_insert_eq (o : obj) k v : get (<[k := v]> o) k = v.
Proof. unfold get. by rewrite lookup_insert_eq. Qed.

Lemma get_insert_ne (o : obj) k k' v :
  k ≠ k' → get (<[k := v]> o) k' = get o k'.
Proof. intros. unfold get. by rewrite lookup_insert_ne. Qed.

(** ** Silencing and offset recomputation, one pathway at a time *)

Section steps.
Context (coh start dur : string) (params : obj).

Lemma silence_lookup k :
  k ≠ start → k ≠ dur → silence coh start dur params !! k = params !! k.
Proof.
  intros. unfold silence. case_match; [|done].
  by rewrite !lookup_insert_ne.
Qed.

Lemma silence_other k :
  k ≠ start → k ≠ dur → get (silence coh start dur params) k = get params k.
Proof. intros. unfold get. by rewrite silence_lookup. Qed.

Lemma silence_zero :
  start ≠ dur → get params coh = num 0 →
  get (silence coh start dur params) start = num 0
  ∧ get (silence coh start dur params) dur = num 0.
Proof.
  intros Hne Hc. unfold silence.
  apply js_seq_num in Hc. rewrite Hc.
  by rewrite get_insert_eq, get_insert_ne, get_insert_eq.
Qed.

Lemma silence_cases :
  start ≠ dur →
  (get (silence coh start dur params) start = get params start
   ∧ get (silence coh start dur params) dur = get params dur)
  ∨ (get (silence coh start dur params) start = num 0
     ∧ get (silence coh start dur params) dur = num 0).
Proof.
  intros Hne. unfold silence. case_match; [right|by left].
  by rewrite get_insert_eq, get_insert_ne, get_insert_eq.
Qed.

Lemma silence_inactive :
  js_seq (get params coh) (num 0) = false →
  silence coh start dur params = params.
Proof. intros H. unfold silence. by rewrite H. Qed.

Lemma recompute_lookup desired end1 k :
  k ≠ start → recompute dur start desired end1 params !! k = params !! k.
Proof.
  intros. unfold recompute. case_match; [|done]. by rewrite lookup_insert_ne.
Qed.

Lemma recompute_other desired end1 k :
  k ≠ start → get (recompute dur start desired end1 params) k = get params k.
Proof. intros. unfold get. by rewrite recompute_lookup. Qed.

Lemma recompute_active desired end1 :
  js_gt (get params dur) (num 0) = true →
  get (recompute dur start desired end1 params) start = js_sub desired end1.
Proof. intros H. unfold recompute. by rewrite H, get_insert_eq. Qed.

Lemma recompute_inactive desired end1 :
  js_gt (get params dur) (num 0) = false →
  recompute dur start desired end1 params = params.
Proof. intros H. unfold recompute. by rewrite H. Qed.
End steps.

Lemma js_gt_zero_false : js_gt (num 0) (num 0) = false.
Proof. reflexivity. Qed.

(** ** Pathways *)

Ltac fields := cbv [field dimension_name channel_name String.app] in *.

(** ** The routed parameters *)

Ltac by_routing spec :=
  unfold routedParams, spread, buildTimingParams, buildCoherenceParams,
    buildDirectionParams;
  destruct (js_seq (TrialSpec.task1 spec) (VStr "mov"));
  destruct (js_seq (TrialSpec.task1 spec) (VStr "or"));
  destruct (js_seq (TrialSpec.task2 spec) VNull);
  destruct (js_seq (TrialSpec.task2 spec) (VStr "mov"));
  destruct (js_seq (TrialSpec.task2 spec) (VStr "or"));
  vm_compute; reflexivity.

Lemma routed_timing_ch1 spec d :
  get (routedParams spec) (field "start" d Ch1) = TrialSpec.csi spec
  ∧ get (routedParams spec) (field "dur" d Ch1) = TrialSpec.dur_ch1 spec.
Proof. split; destruct d; by_routing spec. Qed.

(** ** The silenced parameters *)

Lemma silenced_coh spec d c :
  get (silencedParams spec) (field "coh" d c)
  = get (routedParams spec) (field "coh" d c).
Proof.
  unfold silencedParams. destruct d, c; by rewrite !silence_other.
Qed.

Lemma silenced_zero spec d c :
  get (routedParams spec) (field "coh" d c) = num 0 →
  get (silencedParams spec) (field "start" d c) = num 0
  ∧ get (silencedParams spec) (field "dur" d c) = num 0.
Proof.
  intros Hc. unfold silencedParams.
  destruct d, c; fields.
  - rewrite !(silence_other _ _ _ _ "start_mov_1"),
      !(silence_other _ _ _ _ "dur_mov_1") by done.
    by apply silence_zero.
  - rewrite !(silence_other _ _ _ _ "start_mov_2"),
      !(silence_other _ _ _ _ "dur_mov_2") by done.
    apply silence_zero; [done|]. by rewrite !silence_other.
  - rewrite !(silence_other _ _ _ _ "start_or_1"),
      !(silence_other _ _ _ _ "dur_or_1") by done.
    apply silence_zero; [done|]. by rewrite !silence_other.
  - apply silence_zero; [done|]. by rewrite !silence_other.
Qed.

(** After silencing, a channel-1 pathway either keeps the window
    [csi, csi + dur_ch1) or is zeroed. *)
Lemma silenced_ch1 spec d :
  (get (silencedParams spec) (field "start" d Ch1) = TrialSpec.csi spec
   ∧ get (silencedParams spec) (field "dur" d Ch1) = TrialSpec.dur_ch1 spec)
  ∨ (get (silencedParams spec) (field "start" d Ch1) = num 0
     ∧ get (silencedParams spec) (field "dur" d Ch1) = num 0).
Proof.
  destruct (routed_timing_ch1 spec d) as [Hs Hd].
  unfold silencedParams.
  destruct d; fields.
  - rewrite !(silence_other _ _ _ _ "start_mov_1"),
      !(silence_other _ _ _ _ "dur_mov_1") by done.
    rewrite <-Hs, <-Hd. by apply silence_cases.
  - rewrite !(silence_other _ _ _ _ "start_or_1"),
      !(silence_other _ _ _ _ "dur_or_1") by done.
    rewrite <-Hs, <-Hd.
    rewrite <-(silence_other "coh_mov_1" "start_mov_1" "dur_mov_1"
                 (routedParams spec) "start_or_1") by done.
    rewrite <-(silence_other "coh_mov_1" "start_mov_1" "dur_mov_1"
                 (routedParams spec) "dur_or_1") by done.
    by apply silence_cases.
Qed.

Lemma silenced_ch1_active spec d :
  js_seq (get (routedParams spec) (field "coh" d Ch1)) (num 0) = false →
  get (silencedParams spec) (field "start" d Ch1) = TrialSpec.csi spec
  ∧ get (silencedParams spec) (field "dur" d Ch1) = TrialSpec.dur_ch1 spec.
Proof.
  intros Hc. destruct (routed_timing_ch1 spec d) as [Hs Hd].
  unfold silencedParams. destruct d; fields.
  - rewrite !(silence_other _ _ _ _ "start_mov_1"),
      !(silence_other _ _ _ _ "dur_mov_1") by done.
    by rewrite silence_inactive.
  - rewrite !(silence_other _ _ _ _ "start_or_1"),
      !(silence_other _ _ _ _ "dur_or_1") by done.
    rewrite silence_inactive by (by rewrite silence_other).
    by rewrite !silence_other.
Qed.

(** ** The returned parameters *)

(** Offset recomputation writes no field other than the two channel-2
    start fields. *)
Lemma built_lookup spec k :
  k ≠ "start_mov_2" → k ≠ "start_or_2" →
  buildTrialParams spec !! k = silencedParams spec !! k.
Proof.
  intros. unfold buildTrialParams. case_match; [|done].
  by rewrite !recompute_lookup.
Qed.

Lemma built_other spec k :
  k ≠ "start_mov_2" → k ≠ "start_or_2" →
  get (buildTrialParams spec) k = get (silencedParams spec) k.
Proof. intros. unfold get. by rewrite built_lookup. Qed.

Lemma built_start_ch2 spec d :
  TrialSpec.task2 spec ≠ VNull →
  js_gt (get (silencedParams spec) (field "dur" d Ch2)) (num 0) = true →
  get (buildTrialParams spec) (field "start" d Ch2)
  = js_sub (js_add (TrialSpec.csi spec) (TrialSpec.soa spec))
      (js_add (get (silencedParams spec) (field "start" d Ch1))
              (get (silencedParams spec) (field "dur" d Ch1))).
Proof.
  intros Ht Hd. unfold buildTrialParams.
  destruct (js_seq (TrialSpec.task2 spec) VNull) eqn:E.
  { by apply js_seq_true in E. }
  destruct d; fields; cbn [negb].
  - rewrite recompute_other by done. by apply recompute_active.
  - apply recompute_active. by rewrite recompute_other.
Qed.

Lemma built_silent_ch2 spec d :
  get (silencedParams spec) (field "dur" d Ch2) = num 0 →
  get (buildTrialParams spec) (field "start" d Ch2)
  = get (silencedParams spec) (field "start" d Ch2).
Proof.
  intros Hd. unfold buildTrialParams. case_match; [|done].
  destruct d; fields.
  - rewrite recompute_other by done.
    rewrite recompute_inactive; [done|by rewrite Hd].
  - rewrite recompute_inactive; [|by rewrite recompute_other, Hd].
    by rewrite recompute_other.
Qed.

(** [C2] In the record returned by [buildTrialParams], each of the four
    stimulus pathways whose routed coherence field is 0 has its start field
    and its dur field equal to 0, whatever the other pathways hold. *)
Theorem zero_coherence_silenced (spec : TrialSpec.t) (d : dimension)
    (c : channel) :
  js_seq (get (buildTrialParams spec) (field "coh" d c)) (num 0) = true →
  get (buildTrialParams spec) (field "start" d c) = num 0
  ∧ get (buildTrialParams spec) (field "dur" d c) = num 0.
Proof.
  intros Hc. apply js_seq_num in Hc.
  rewrite built_other, silenced_coh in Hc by (by destruct d, c).
  destruct (silenced_zero spec d c Hc) as [Hs Hd].
  split; [|by rewrite built_other by (by destruct d, c)].
  destruct c.
  - by rewrite built_other by (by destruct d).
  - by rewrite built_silent_ch2.
Qed.

Lemma zero_coherence_silenced_witness :
  get (buildTrialParams dualSpec) "start_mov_2" = num 0
  ∧ get (buildTrialParams dualSpec) "dur_mov_2" = num 0.
Proof. by apply (zero_coherence_silenced dualSpec Mov Ch2). Defined.



(** ** Field count and definedness of the returned record *)

Lemma insert_is_Some (o : obj) k' v k :
  is_Some (o !! k) → is_Some (<[k' := v]> o !! k).
Proof. intros. apply lookup_insert_is_Some'. by right. Qed.

Section steps_shape.
Context (P : string → jsval → Prop) (params : obj).

Lemma silence_is_Some coh start dur k :
  is_Some (params !! k) → is_Some (silence coh start dur params !! k).
Proof.
  intros. unfold silence. case_match; [|done].
  by repeat apply insert_is_Some.
Qed.

Lemma silence_size coh start dur :
  is_Some (params !! start) → is_Some (params !! dur) →
  size (silence coh start dur params) = size params.
Proof.
  intros. unfold silence. case_match; [|done].
  rewrite !map_size_insert_Some; [done..|].
  by apply insert_is_Some.
Qed.

Lemma silence_Forall coh start dur :
  P start (num 0) → P dur (num 0) →
  map_Forall P params → map_Forall P (silence coh start dur params).
Proof.
  intros. unfold silence. case_match; [|done].
  by repeat apply map_Forall_insert_2.
Qed.

Lemma recompute_is_Some dur start desired end1 k :
  is_Some (params !! k) →
  is_Some (recompute dur start desired end1 params !! k).
Proof.
  intros. unfold recompute. case_match; [|done].
  by apply insert_is_Some.
Qed.

Lemma recompute_size dur start desired end1 :
  is_Some (params !! start) →
  size (recompute dur start desired end1 params) = size params.
Proof.
  intros. unfold recompute. case_match; [|done].
  by rewrite map_size_insert_Some.
Qed.

Lemma recompute_Forall dur start desired end1 :
  P start (js_sub desired end1) →
  map_Forall P params → map_Forall P (recompute dur start desired end1 params).
Proof.
  intros. unfold recompute. case_match; [|done].
  by apply map_Forall_insert_2.
Qed.
End steps_shape.

(** The timing fields of all four pathways are always present. *)
Lemma timing_has_timing spec d c :
  is_Some (buildTimingParams spec !! field "start" d c)
  ∧ is_Some (buildTimingParams spec !! field "dur" d c).
Proof.
  unfold buildTimingParams.
  destruct (negb (js_seq (TrialSpec.task2 spec) VNull));
    split; destruct d, c; vm_compute; by eexists.
Qed.

Lemma routed_has_timing spec d c :
  is_Some (routedParams spec !! field "start" d c)
  ∧ is_Some (routedParams spec !! field "dur" d c).
Proof.
  destruct (timing_has_timing spec d c).
  unfold routedParams, spread. rewrite !lookup_union_is_Some. tauto.
Qed.

Lemma silenced_has_timing spec d c :
  is_Some (silencedParams spec !! field "start" d c)
  ∧ is_Some (silencedParams spec !! field "dur" d c).
Proof.
  destruct (routed_has_timing spec d c).
  split; unfold silencedParams; by repeat apply silence_is_Some.
Qed.

(** Silencing and offset recomputation only overwrite fields. *)
Lemma built_size spec :
  size (buildTrialParams spec) = size (routedParams spec).
Proof.
  pose proof (λ d c, proj1 (routed_has_timing spec d c)) as Hs.
  pose proof (λ d c, proj2 (routed_has_timing spec d c)) as Hd.
  assert (size (silencedParams spec) = size (routedParams spec)) as <-.
  { unfold silencedParams.
    rewrite !silence_size; first done;
      repeat apply silence_is_Some;
      first [apply (Hs Mov Ch1)|apply (Hs Mov Ch2)|apply (Hs Ori Ch1)
            |apply (Hs Ori Ch2)|apply (Hd Mov Ch1)|apply (Hd Mov Ch2)
            |apply (Hd Ori Ch1)|apply (Hd Ori Ch2)]. }
  unfold buildTrialParams. case_match; [|done].
  rewrite !recompute_size; first done.
  - apply (silenced_has_timing spec Mov Ch2).
  - apply recompute_is_Some, (silenced_has_timing spec Ori Ch2).
Qed.

Lemma numeric_sub a b : numeric a → numeric b → numeric (js_sub a b).
Proof. intros [x ->] [y ->]. by eexists. Qed.

Lemma numeric_defined v : numeric v → defined v.
Proof. by intros [q ->]. Qed.

Lemma task_defined v : is_task v → defined v.
Proof. by intros [-> | ->]. Qed.

Lemma null_defined : defined VNull.
Proof. done. Qed.

Create HintDb js discriminated.
#[local] Hint Resolve numeric_add numeric_sub numeric_num numeric_defined
  task_defined null_defined : js.

(** Evaluates the strict-equality tests between literals in the goal. *)
Ltac eval_tests :=
  repeat match goal with
  | |- context [js_seq ?a ?b] =>
      let r := eval vm_compute in (js_seq a b) in
      change (js_seq a b) with r
  end;
  cbn [negb].

Ltac split_tasks spec :=
  destruct spec as [t1 t2 ? ? ? ? ? [? ? ? ?] [? ? ? ?]];
  cbn [TrialSpec.task1 TrialSpec.task2 TrialSpec.csi TrialSpec.dur_ch1
       TrialSpec.dur_ch2 TrialSpec.soa TrialSpec.responseWindow
       TrialSpec.coherence TrialSpec.dir ch1_task ch1_distractor ch2_task
       ch2_distractor] in *.

Lemma routed_size spec :
  is_task (TrialSpec.task1 spec) →
  TrialSpec.task2 spec = VNull ∨ is_task (TrialSpec.task2 spec) →
  size (routedParams spec) = 26%nat.
Proof.
  intros H1 H2. split_tasks spec.
  destruct H1 as [-> | ->], H2 as [-> | [-> | ->]]; by vm_compute.
Qed.

Lemma routed_defined spec :
  is_task (TrialSpec.task1 spec) →
  TrialSpec.task2 spec = VNull ∨ is_task (TrialSpec.task2 spec) →
  numeric_inputs spec →
  map_Forall (λ _, defined) (routedParams spec).
Proof.
  intros H1 H2 (?&?&?&?&?&(?&?&?&?)&(?&?&?&?)). split_tasks spec.
  unfold routedParams, spread, buildTimingParams, buildCoherenceParams,
    buildDirectionParams.
  destruct H1 as [-> | ->], H2 as [-> | [-> | ->]]; eval_tests;
    repeat first [apply map_Forall_union_2 | apply map_Forall_insert_2
                 | apply map_Forall_empty];
    cbn [TrialSpec.task1 TrialSpec.task2 TrialSpec.csi TrialSpec.dur_ch1
         TrialSpec.dur_ch2 TrialSpec.soa TrialSpec.responseWindow
         TrialSpec.coherence TrialSpec.dir ch1_task ch1_distractor ch2_task
         ch2_distractor];
    first [by split | auto 6 with js].
Qed.



(** Outside those task labels the routing leaves fields out: with an
    unknown [task1] the record has 22 fields. *)
Example built_unknown_task1 :
  size (buildTrialParams
          (TrialSpec.mk (VStr "foo") VNull (num 200) (num 300) (num 0)
             (num 0) (num 2000)
             (mkQuad (frac 8 10) (num 0) (num 0) (num 0))
             (mkQuad (num 0) (num 0) (num 0) (num 0)))) = 22%nat.
Proof. by vm_compute. Qed.

(** ** Missing direction fields *)

(** [C3] A spec whose [dir] record lacks the channel-1 task direction is
    not rejected: [buildTrialParams] returns a record in which [dir_mov_1]
    is present and [undefined].  The draft of the same function rejects an
    absent [dir_1] with an error. *)
Theorem missing_direction_not_reported
    (task2 csi dur_ch1 dur_ch2 soa responseWindow d2 d3 d4 : jsval)
    (coherence : Quad) :
  buildTrialParams
    (TrialSpec.mk (VStr "mov") task2 csi dur_ch1 dur_ch2 soa responseWindow
       coherence (mkQuad VUndefined d2 d3 d4)) !! "dir_mov_1"
  = Some VUndefined
  ∧ buildTrialParams_draft (VStr "mov") csi dur_ch1 VUndefined
    = inl "buildTrialParams: dir_1 is required".
Proof.
  split; [|done].
  rewrite built_lookup by done. unfold silencedParams.
  rewrite !silence_lookup by done.
  unfold routedParams, spread, buildTimingParams, buildCoherenceParams,
    buildDirectionParams.
  cbn [TrialSpec.task1 TrialSpec.task2 TrialSpec.dir ch1_task].
  destruct (js_seq task2 VNull), (js_seq task2 (VStr "mov")),
    (js_seq task2 (VStr "or")); by vm_compute.
Qed.

(** ** Draws from [Math.random()] *)

Lemma unit_rng_tail r : unit_rng r → unit_rng (tail r).
Proof. intros H i. apply H. Qed.

Lemma random_run r : random r = Ok (r 0%nat, tail r).
Proof. done. Qed.

Lemma coin_run {A} (a b : A) r :
  coin a b r = Ok (if bool_decide (r 0%nat < half)%Qc then a else b, tail r).
Proof. done. Qed.

(** [Math.floor(Math.random() * n)] is an index below [n]. *)
Lemma floor_draw (x : Qc) (n : Z) :
  (0 ≤ x < 1)%Qc → (0 < n)%Z →
  (0 ≤ Qfloor (x * Qc_of_Z n)%Qc < n)%Z.
Proof.
  intros [H0 H1] Hn.
  assert (0 < Qc_of_Z n)%Qc as Hn'.
  { change (inject_Z 0 < inject_Z n)%Q. by rewrite <-Zlt_Qlt. }
  split.
  - rewrite <-(Qfloor_Z 0). apply Qfloor_resp_le.
    change (0 ≤ x * Qc_of_Z n)%Qc.
    rewrite <-(Qcmult_0_l (Qc_of_Z n)).
    apply Qcmult_le_compat_r; [done|by apply Qclt_le_weak].
  - rewrite Zlt_Qlt. eapply Qle_lt_trans; [apply Qfloor_le|].
    change (x * Qc_of_Z n < Qc_of_Z n)%Qc.
    rewrite <-(Qcmult_1_l (Qc_of_Z n)) at 2.
    by apply Qcmult_lt_compat_r.
Qed.

(** [min + x * (max - min)] stays between [min] and [max]. *)
Lemma between_draw (x lo hi : Qc) :
  (0 ≤ x < 1)%Qc → (lo ≤ hi)%Qc →
  (lo ≤ lo + x * (hi - lo) ≤ hi)%Qc.
Proof.
  intros [H0 H1] Hle.
  assert (0 ≤ hi - lo)%Qc as Hw.
  { apply Qcle_minus_iff in Hle. exact Hle. }
  split.
  - rewrite <-(Qcplus_0_r lo) at 1. apply Qcplus_le_compat; [apply Qcle_refl|].
    rewrite <-(Qcmult_0_l (hi - lo)). by apply Qcmult_le_compat_r.
  - replace hi with (lo + 1 * (hi - lo))%Qc at 2 by ring.
    apply Qcplus_le_compat; [apply Qcle_refl|].
    apply Qcmult_le_compat_r; [by apply Qclt_le_weak|done].
Qed.

Lemma qmin_le_qmax x y : (qmin x y ≤ qmax x y)%Qc.
Proof.
  unfold qmin, qmax. case_bool_decide as H; [done|].
  apply Qclt_le_weak. by apply Qclt_nge.
Qed.

(** ** Distribution sampler *)

(** Evaluates the comparisons between string literals in the goal. *)
Ltac eval_types :=
  repeat match goal with
  | |- context [bool_decide (@eq string ?a ?b)] =>
      let r := eval vm_compute in (bool_decide (a = b)) in
      change (bool_decide (a = b)) with r
  end;
  cbv iota.

Lemma sample_fixed config r :
  Distribution.type config = "fixed" →
  sampleFromDistribution config r = Ok (Distribution.value config, r).
Proof. intros H. unfold sampleFromDistribution. by rewrite H. Qed.

Lemma sample_fallback config r :
  (Distribution.type config = "uniform"
   ∧ short 2 (Distribution.params config))
  ∨ (Distribution.type config = "choice"
     ∧ short 1 (Distribution.params config)) →
  sampleFromDistribution config r = Ok (Distribution.value config, r).
Proof.
  unfold sampleFromDistribution, short.
  intros [[-> H]|[-> H]]; eval_types;
    destruct (Distribution.params config) as [ps|]; try done.
  - by rewrite bool_decide_eq_true_2.
  - rewrite bool_decide_eq_true_2; [done|]. destruct ps; simpl in *; lia.
Qed.

Lemma sample_uniform config r p0 p1 ps :
  unit_rng r →
  Distribution.type config = "uniform" →
  Distribution.params config = Some (p0 :: p1 :: ps) →
  ∃ x, sampleFromDistribution config r = Ok (VNum x, tail r)
       ∧ (qmin p0 p1 ≤ x ≤ qmax p0 p1)%Qc.
Proof.
  intros Hr Ht Hp. unfold sampleFromDistribution. rewrite Ht, Hp. eval_types.
  rewrite bool_decide_eq_false_2 by (simpl; lia).
  eexists. split; [reflexivity|].
  apply between_draw; [apply Hr|apply qmin_le_qmax].
Qed.

Lemma sample_choice config r ps :
  unit_rng r →
  Distribution.type config = "choice" →
  Distribution.params config = Some ps →
  ps ≠ [] →
  ∃ x, sampleFromDistribution config r = Ok (VNum x, tail r) ∧ x ∈ ps.
Proof.
  intros Hr Ht Hp Hne. unfold sampleFromDistribution. rewrite Ht, Hp.
  eval_types.
  rewrite bool_decide_eq_false_2 by (by destruct ps).
  assert (0 < Z.of_nat (length ps))%Z as Hlen by (destruct ps; simpl; [done|lia]).
  destruct (floor_draw (r 0%nat) _ (Hr 0%nat) Hlen) as [Hlo Hhi].
  set (j := Qfloor (r 0%nat * Qc_of_Z (Z.of_nat (length ps)))%Qc) in *.
  destruct (lookup_lt_is_Some_2 ps (Z.to_nat j)) as [x Hx]; [lia|].
  exists x. split; [|by eapply list_elem_of_lookup_2].
  unfold mbind, gen_bind, random, arr_get. fold j.
  by rewrite bool_decide_eq_true_2, Hx.
Qed.

Lemma sample_throws config r :
  (∃ msg, sampleFromDistribution config r = Throw msg)
  ↔ ¬ known_type (Distribution.type config).
Proof.
  unfold sampleFromDistribution, known_type.
  repeat case_bool_decide.
  - split; [intros [? ?]; done|tauto].
  - split; [|tauto]. intros [msg Hm]. exfalso.
    destruct (Distribution.params config); [case_bool_decide|]; done.
  - split; [|tauto]. intros [msg Hm]. exfalso.
    destruct (Distribution.params config); [case_bool_decide|]; done.
  - split; [tauto|]. intros _. by eexists.
Qed.


(** ** Direction assignment *)

Lemma coin_horizontal (r : rng) :
  horizontal (if bool_decide (r 0%nat < half)%Qc then num 0 else num 180).
Proof. case_bool_decide; [by left|by right]. Qed.

(** [C10] In a single-task call, a congruency label other than
    ['congruent'], ['incongruent'], ['neutral'] and ['univalent'] is accepted
    without an error: the result has [ch1_distractor = 0], [ch1_task] in
    {0, 180} and [ch2_task = ch2_distractor = 0], which is the result for
    ['univalent']. *)
Theorem assignDirections_unknown_congruency (task rso : jsval)
    (congruency : string) (r : rng) :
  congruency ∉ ["congruent"; "incongruent"; "neutral"; "univalent"] →
  ∃ primaryDir,
    assignDirections task (VStr congruency) "single-task" rso r
    = Ok (mkQuad primaryDir (num 0) (num 0) (num 0), tail r)
    ∧ horizontal primaryDir
    ∧ assignDirections task (VStr congruency) "single-task" rso r
      = assignDirections task (VStr "univalent") "single-task" rso r.
Proof.
  intros Hc.
  rewrite !not_elem_of_cons in Hc. destruct Hc as (H1 & H2 & H3 & _).
  assert (∀ l, congruency ≠ l → js_seq (VStr congruency) (VStr l) = false)
    as Hl.
  { intros l Hne. apply bool_decide_eq_false_2. by intros [= ->]. }
  eexists. split_and!; [|apply coin_horizontal|];
    unfold assignDirections; eval_types; by rewrite !Hl.
Qed.

Lemma assignDirections_unknown_congruency_witness :
  ∃ primaryDir,
    assignDirections (VStr "mov") (VStr "bivalent") "single-task"
      (VStr "identical") cycle_rng
    = Ok (mkQuad primaryDir (num 0) (num 0) (num 0), tail cycle_rng)
    ∧ horizontal primaryDir.
Proof.
  destruct (assignDirections_unknown_congruency (VStr "mov") (VStr "identical")
              "bivalent" cycle_rng) as (d & H1 & H2 & _).
  - rewrite !elem_of_cons, elem_of_nil. by intros [|[|[|[|]]]].
  - by exists d.
Defined.

(** ** Task sequences *)

Lemma arr_get_last (sequence : list jsval) x :
  arr_get id (sequence ++ [x]) (Z.of_nat (length sequence)) = x.
Proof.
  unfold arr_get. rewrite bool_decide_eq_true_2 by lia.
  rewrite Nat2Z.id. by rewrite lookup_app_r, Nat.sub_diag by lia.
Qed.

Lemma arr_get_lookup (sequence : list jsval) (i : nat) x :
  sequence !! i = Some x → arr_get id sequence (Z.of_nat i) = x.
Proof.
  intros H. unfold arr_get. rewrite bool_decide_eq_true_2 by lia.
  by rewrite Nat2Z.id, H.
Qed.

Lemma randomLoop_length k switchRate i sequence r :
  ∃ sequence' r',
    randomLoop k switchRate i sequence r = Ok (sequence', r')
    ∧ length sequence' = (length sequence + k)%nat.
Proof.
  revert i sequence r. induction k as [|k IH]; intros i sequence r.
  - exists sequence, r. split; [done|]. simpl. lia.
  - simpl. unfold mbind at 1, gen_bind at 1. rewrite random_run.
    edestruct IH as (s' & r' & -> & Hlen).
    exists s', r'. split; [done|]. rewrite Hlen, length_app. simpl. lia.
Qed.

Lemma aabbLoop_length k i sequence :
  length (aabbLoop k i sequence) = (length sequence + k)%nat.
Proof.
  revert i sequence. induction k as [|k IH]; intros i sequence; simpl.
  - lia.
  - rewrite IH, length_app. simpl. lia.
Qed.

Lemma generateTaskSequence_unfold numTrials sequenceType switchRate
    startTask r :
  generateTaskSequence numTrials sequenceType switchRate startTask r
  = let '(first, r1) := firstTask startTask r in
    if bool_decide (sequenceType = "Random") then
      randomLoop (Z.to_nat (numTrials - 1)) switchRate 1 [first] r1
    else if bool_decide (sequenceType = "AABB") then
      Ok (aabbLoop (Z.to_nat (numTrials - 1)) 1 [first], r1)
    else Throw ("Unknown sequenceType: " +:+ sequenceType).
Proof.
  unfold generateTaskSequence, firstTask.
  destruct startTask; unfold mbind, gen_bind; rewrite ?coin_run;
    cbn [mret gen_ret]; by repeat case_bool_decide.
Qed.

(** The sequence always holds its first element: its length is
    [max(numTrials, 1)]. *)
Lemma generateTaskSequence_length numTrials sequenceType switchRate
    startTask r :
  sequenceType = "Random" ∨ sequenceType = "AABB" →
  ∃ sequence r',
    generateTaskSequence numTrials sequenceType switchRate startTask r
    = Ok (sequence, r')
    ∧ length sequence = Z.to_nat (Z.max numTrials 1).
Proof.
  intros Ht. rewrite generateTaskSequence_unfold.
  destruct (firstTask startTask r) as [first r1].
  destruct Ht as [-> | ->]; eval_types.
  - destruct (randomLoop_length (Z.to_nat (numTrials - 1)) switchRate 1
                [first] r1) as (s' & r' & -> & Hlen).
    exists s', r'. split; [done|]. rewrite Hlen. simpl. lia.
  - eexists _, _. split; [done|]. rewrite aabbLoop_length. simpl. lia.
Qed.

(** [C6] For [numTrials = 0] the generated sequence is not empty: with
    either sequence type it is the one-element array holding the first
    task. *)
Theorem generateTaskSequence_zero_trials (switchRate : Qc) (r : rng) :
  generateTaskSequence 0 "AABB" switchRate (VStr "mov") r
  = Ok ([VStr "mov"], r)
  ∧ generateTaskSequence 0 "Random" switchRate (VStr "mov") r
    = Ok ([VStr "mov"], r).
Proof. done. Qed.

(** For at least one trial the length is [numTrials]. *)
Lemma generateTaskSequence_length_pos numTrials sequenceType switchRate
    startTask r :
  (1 ≤ numTrials)%Z →
  sequenceType = "Random" ∨ sequenceType = "AABB" →
  ∃ sequence r',
    generateTaskSequence numTrials sequenceType switchRate startTask r
    = Ok (sequence, r')
    ∧ Z.of_nat (length sequence) = numTrials.
Proof.
  intros Hn Ht.
  destruct (generateTaskSequence_length numTrials sequenceType switchRate
              startTask r Ht) as (s & r' & H & Hlen).
  exists s, r'. split; [done|]. lia.
Qed.

Lemma switchTask_involutive task :
  is_task task → switchTask (switchTask task) = task.
Proof. by intros [-> | ->]. Qed.

Lemma firstTask_is_task startTask r :
  startTask = VNull ∨ is_task startTask →
  is_task (firstTask startTask r).1.
Proof.
  intros [-> | [-> | ->]]; simpl; [|by left|by right].
  case_bool_decide; [by left|by right].
Qed.

Lemma aabbLoop_pattern first k i sequence :
  is_task first →
  (1 ≤ i)%nat →
  length sequence = i →
  (∀ j, (j < i)%nat → sequence !! j = Some (aabb_at first j)) →
  ∀ j, (j < i + k)%nat →
       aabbLoop k i sequence !! j = Some (aabb_at first j).
Proof.
  intros Hf. revert i sequence.
  induction k as [|k IH]; intros i sequence Hi Hlen Hseq j Hj; simpl.
  - apply Hseq. lia.
  - apply IH; [lia|rewrite length_app; simpl; lia| |lia].
    intros j' Hj'. destruct (decide (j' = i)) as [->|Hne].
    + rewrite lookup_app_r, Hlen, Nat.sub_diag by lia. simpl. f_equal.
      replace (Z.of_nat i - 1)%Z with (Z.of_nat (i - 1)) by lia.
      rewrite (arr_get_lookup _ _ (aabb_at first (i - 1)))
        by (apply Hseq; lia).
      unfold aabb_at. repeat case_bool_decide; try done;
        try (exfalso; Z.to_euclidean_division_equations; lia).
      by rewrite switchTask_involutive.
    + rewrite lookup_app_l by lia. apply Hseq. lia.
Qed.

(** [C9] With at least one trial and a start task that is ['mov'], ['or']
    or [null], the ['AABB'] sequence has [numTrials] elements and position
    [i] holds the first task when [floor(i / 2)] is even and the other task
    when it is odd; nothing is drawn after the first element, which is
    [startTask] when one is given.  Over 8 trials from ['mov'] it is
    [mov, mov, or, or, mov, mov, or, or]. *)
Theorem aabb_pattern (numTrials : Z) (switchRate : Qc) (startTask : jsval)
    (r : rng) :
  (1 ≤ numTrials)%Z →
  startTask = VNull ∨ is_task startTask →
  ∃ sequence,
    generateTaskSequence numTrials "AABB" switchRate startTask r
    = Ok (sequence, (firstTask startTask r).2)
    ∧ Z.of_nat (length sequence) = numTrials
    ∧ (∀ i, (i < length sequence)%nat →
            sequence !! i = Some (aabb_at (firstTask startTask r).1 i))
    ∧ (is_task startTask → firstTask startTask r = (startTask, r))
    ∧ generateTaskSequence 8 "AABB" switchRate (VStr "mov") r
      = Ok ([VStr "mov"; VStr "mov"; VStr "or"; VStr "or";
             VStr "mov"; VStr "mov"; VStr "or"; VStr "or"], r).
Proof.
  intros Hn Hs. pose proof (firstTask_is_task startTask r Hs) as Hf.
  rewrite generateTaskSequence_unfold.
  destruct (firstTask startTask r) as [first r1] eqn:E. eval_types.
  eexists. split_and!; [done| | | |done].
  - rewrite aabbLoop_length. simpl. lia.
  - intros i Hi. rewrite aabbLoop_length in Hi.
    apply aabbLoop_pattern; [done..| |done].
    intros [|j] Hj; [done|lia].
  - intros [-> | ->]; simpl in E; by inversion E.
Qed.

Lemma aabb_pattern_witness :
  ∃ sequence,
    generateTaskSequence 8 "AABB" 0%Qc (VStr "mov") cycle_rng
    = Ok (sequence, cycle_rng)
    ∧ Z.of_nat (length sequence) = 8
    ∧ ∀ i, (i < length sequence)%nat →
           sequence !! i = Some (aabb_at (VStr "mov") i).
Proof.
  destruct (aabb_pattern 8 0%Qc (VStr "mov") cycle_rng)
    as (s & H1 & H2 & H3 & _); [lia|right; by left|].
  by exists s.
Defined.

(** ** Congruency sequences *)

Lemma swap_length sequence i j : length (swap sequence i j) = length sequence.
Proof.
  unfold swap. repeat case_match; by rewrite ?length_insert.
Qed.

Lemma insert_head_perm (l : list string) j x y :
  l !! j = Some y → y :: <[j := x]> l ≡ₚ x :: l.
Proof.
  revert j. induction l as [|z l IH]; intros [|j] H; simplify_eq/=.
  - apply perm_swap.
  - rewrite perm_swap, (IH j H). apply perm_swap.
Qed.

Lemma swap_perm sequence i j : swap sequence i j ≡ₚ sequence.
Proof.
  unfold swap. destruct (sequence !! i) as [xi|] eqn:Hi; [|done].
  destruct (sequence !! Z.to_nat j) as [xj|] eqn:Hj; [|done].
  generalize dependent (Z.to_nat j). clear j. revert i Hi.
  induction sequence as [|z l IH]; intros [|i] Hi [|j] Hj; simplify_eq/=.
  - done.
  - by apply insert_head_perm.
  - by apply insert_head_perm.
  - f_equiv. by apply IH.
Qed.

Lemma shuffleLoop_perm i sequence r :
  ∃ sequence' r',
    shuffleLoop i sequence r = Ok (sequence', r') ∧ sequence' ≡ₚ sequence.
Proof.
  revert sequence r. induction i as [|i IH]; intros sequence r.
  - by exists sequence, r.
  - cbn [shuffleLoop]. unfold mbind at 1, gen_bind at 1. rewrite random_run.
    edestruct IH as (s' & r' & -> & Hp).
    exists s', r'. split; [done|]. by rewrite Hp, swap_perm.
Qed.

(** The shuffle returns a permutation of the assembled labels. *)
Lemma generateCongruencySequence_perm numTrials conditions proportions r :
  ∃ sequence r',
    generateCongruencySequence numTrials conditions proportions r
    = Ok (sequence, r')
    ∧ sequence ≡ₚ assignLoop (num numTrials) proportions (length conditions)
                    0 conditions [] (num 0).
Proof. unfold generateCongruencySequence. apply shuffleLoop_perm. Qed.

Lemma num_add a b : js_add (num a) (num b) = num (a + b).
Proof. unfold js_add, num. cbn. by rewrite Z2Qc_inj_add. Qed.

Lemma num_sub a b : js_sub (num a) (num b) = num (a - b).
Proof. unfold js_sub, num. cbn. by rewrite Z2Qc_inj_sub. Qed.

Lemma iterations_num c : iterations (num c) = Z.to_nat c.
Proof. unfold iterations, num. cbn. by rewrite Qceiling_Z. Qed.

(** The remainder given to the last condition repairs an undershoot: when
    the rounded counts before it fit into [numTrials], the assembled
    sequence has [numTrials] labels. *)
Lemma assignLoop_length numTrials proportions len rest i sequence assigned :
  rest ≠ [] →
  (i + length rest = len)%nat →
  (0 ≤ assigned)%Z →
  length sequence = Z.to_nat assigned →
  fits numTrials proportions i (length rest - 1) assigned →
  length (assignLoop (num numTrials) proportions len i rest sequence
            (num assigned)) = Z.to_nat numTrials.
Proof.
  revert i sequence assigned.
  induction rest as [|c rest IH]; intros i sequence a Hne Hi Ha Hlen Hfits;
    [done|].
  cbn [assignLoop]. destruct rest as [|c' rest].
  - rewrite bool_decide_eq_true_2 by (simpl in Hi; lia).
    rewrite num_sub, iterations_num. cbn [assignLoop].
    rewrite length_app, length_replicate, Hlen. simpl in Hfits. lia.
  - rewrite bool_decide_eq_false_2 by (simpl in Hi; lia).
    cbn [length Nat.sub fits] in Hfits. rewrite ?Nat.sub_0_r in Hfits.
    destruct Hfits as (p & Hp & Hr & Hfits).
    assert (js_round (js_mul (num numTrials)
              (arr_get VNum proportions (Z.of_nat i)))
            = num (rounded numTrials p)) as ->.
    { unfold arr_get. rewrite bool_decide_eq_true_2 by lia.
      by rewrite Nat2Z.id, Hp. }
    rewrite num_add, iterations_num.
    apply IH; [done|simpl in *; lia|lia| |].
    + rewrite length_app, length_replicate, Hlen. lia.
    + cbn [length Nat.sub]. by rewrite ?Nat.sub_0_r.
Qed.


(** [C5] With four conditions of proportion 0.25 each and [numTrials = 2],
    every condition before the last receives [round(0.5) = 1] label, the
    remainder for the last one is [2 - 3 = -1], and the returned sequence has
    3 labels instead of 2, whatever [Math.random()] draws. *)
Theorem congruency_sequence_overshoots (r : rng) :
  ∃ sequence r',
    generateCongruencySequence 2
      ["congruent"; "incongruent"; "neutral"; "univalent"]
      [quarter; quarter; quarter; quarter] r
    = Ok (sequence, r')
    ∧ sequence ≡ₚ ["congruent"; "incongruent"; "neutral"]
    ∧ length sequence = 3%nat.
Proof.
  edestruct generateCongruencySequence_perm as (s & r' & -> & Hp).
  exists s, r'. split; [done|].
  assert (s ≡ₚ ["congruent"; "incongruent"; "neutral"]) as Hs.
  { rewrite Hp. by vm_compute. }
  split; [done|]. by rewrite Hs.
Qed.

(** The two-condition example of the test suite: 120 trials split 60/60. *)
Lemma congruency_sequence_120 (r : rng) :
  ∃ sequence r',
    generateCongruencySequence 120 ["congruent"; "incongruent"] [half; half] r
    = Ok (sequence, r')
    ∧ sequence ≡ₚ replicate 60 "congruent" ++ replicate 60 "incongruent"
    ∧ length sequence = 120%nat.
Proof.
  edestruct generateCongruencySequence_perm as (s & r' & -> & Hp).
  exists s, r'. split; [done|].
  assert (s ≡ₚ replicate 60 "congruent" ++ replicate 60 "incongruent") as Hs.
  { rewrite Hp. by vm_compute. }
  split; [done|]. by rewrite Hs.
Qed.

(** ** Computations only move forward in the stream of draws *)

Lemma suffix_refl r : suffix r r.
Proof. by exists 0%nat. Qed.

Lemma suffix_trans r1 r2 r3 : suffix r1 r2 → suffix r2 r3 → suffix r1 r3.
Proof.
  intros [k1 H1] [k2 H2]. exists (k1 + k2)%nat. intros i.
  rewrite H2, H1. f_equal. lia.
Qed.

Lemma suffix_tail r : suffix r (tail r).
Proof. by exists 1%nat. Qed.

Lemma suffix_unit r r' : unit_rng r → suffix r r' → unit_rng r'.
Proof. intros Hr [k Hk] i. rewrite Hk. apply Hr. Qed.

Lemma bind_Ok {A B : Type} (m : gen A) (f : A → gen B) r b r' :
  (m ≫= f) r = Ok (b, r') →
  ∃ a r1, m r = Ok (a, r1) ∧ f a r1 = Ok (b, r').
Proof.
  unfold mbind, gen_bind. destruct (m r) as [[a r1]|]; [|done]. by exists a, r1.
Qed.

Lemma streaming_ret {A : Type} (a : A) : streaming (mret a).
Proof. intros r a' r' [= _ <-]. apply suffix_refl. Qed.

Lemma streaming_throw {A : Type} msg : streaming (@throw A msg).
Proof. by intros r a r'. Qed.

Lemma streaming_random : streaming random.
Proof. intros r a r' [= _ <-]. apply suffix_tail. Qed.

Lemma streaming_bind {A B : Type} (m : gen A) (f : A → gen B) :
  streaming m → (∀ a, streaming (f a)) → streaming (m ≫= f).
Proof.
  intros Hm Hf r b r' (a & r1 & H1 & H2)%bind_Ok.
  eapply suffix_trans; [by eapply Hm|by eapply Hf].
Qed.

Lemma streaming_coin {A : Type} (a b : A) : streaming (coin a b).
Proof.
  apply streaming_bind; [apply streaming_random|].
  intros. apply streaming_ret.
Qed.

Create HintDb stream discriminated.
#[local] Hint Resolve streaming_ret streaming_throw streaming_random
  streaming_coin : stream.
#[local] Hint Extern 2 (streaming (_ ≫= _)) =>
  apply streaming_bind; [|intros] : stream.
#[local] Hint Extern 3 (streaming (if ?b then _ else _)) =>
  destruct b : stream.
#[local] Hint Extern 3 (streaming (match ?x with _ => _ end)) =>
  destruct x : stream.

Lemma streaming_sampleFromDistribution config :
  streaming (sampleFromDistribution config).
Proof. unfold sampleFromDistribution. auto 10 with stream. Qed.

Lemma streaming_assignDirections task congruency paradigm rso :
  streaming (assignDirections task congruency paradigm rso).
Proof. unfold assignDirections. auto 12 with stream. Qed.

Lemma streaming_randomLoop k switchRate i sequence :
  streaming (randomLoop k switchRate i sequence).
Proof.
  revert i sequence. induction k; intros; simpl; auto with stream.
Qed.

Lemma streaming_generateTaskSequence numTrials sequenceType switchRate
    startTask :
  streaming (generateTaskSequence numTrials sequenceType switchRate startTask).
Proof.
  unfold generateTaskSequence.
  apply streaming_bind; [destruct startTask; auto with stream|].
  intros. repeat case_bool_decide;
    auto using streaming_randomLoop with stream.
Qed.

Lemma streaming_shuffleLoop i sequence : streaming (shuffleLoop i sequence).
Proof. revert sequence. induction i; intros; simpl; auto with stream. Qed.

Lemma streaming_generateCongruencySequence numTrials conditions proportions :
  streaming (generateCongruencySequence numTrials conditions proportions).
Proof. apply streaming_shuffleLoop. Qed.

#[local] Hint Resolve streaming_sampleFromDistribution
  streaming_assignDirections streaming_generateTaskSequence
  streaming_generateCongruencySequence : stream.

Lemma streaming_assembleTrial blockConfig taskSequence transitions
    congruencySequence i :
  streaming (assembleTrial blockConfig taskSequence transitions
               congruencySequence i).
Proof. unfold assembleTrial. auto 10 with stream. Qed.

(** ** Block trials *)

Lemma built_tasks spec :
  get (buildTrialParams spec) "task_1" = TrialSpec.task1 spec
  ∧ get (buildTrialParams spec) "task_2" = TrialSpec.task2 spec.
Proof.
  rewrite !built_other by done. unfold silencedParams.
  rewrite !silence_other by done. split; by_routing spec.
Qed.

Ltac rewrite_tasks :=
  match goal with
  | |- context [buildTrialParams ?s] =>
      let H1 := fresh in let H2 := fresh in
      destruct (built_tasks s) as [H1 H2]; rewrite ?H1, ?H2
  end.

Section assemble.
Context (blockConfig : BlockConfig.t).
Context (taskSequence transitions : list jsval).
Context (congruencySequence : list string).

Lemma assembleTrial_dual i r t r' :
  BlockConfig.paradigm blockConfig = "dual-task" →
  assembleTrial blockConfig taskSequence transitions congruencySequence i r
  = Ok (t, r') →
  complementary t.
Proof.
  intros Hp. unfold assembleTrial. rewrite Hp. eval_types.
  intros (iti & r1 & _ & (soa & r2 & _ & (dir & r3 & _ & [= <- _])%bind_Ok
                         )%bind_Ok)%bind_Ok.
  unfold complementary. cbn [meta seParams Meta.task Meta.task2].
  split; [done|]. by rewrite_tasks.
Qed.

Lemma assembleTrial_soa i r t r' ps :
  unit_rng r →
  BlockConfig.paradigm blockConfig = "dual-task" →
  Distribution.type (BlockConfig.soa blockConfig) = "choice" →
  Distribution.params (BlockConfig.soa blockConfig) = Some ps →
  ps ≠ [] →
  assembleTrial blockConfig taskSequence transitions congruencySequence i r
  = Ok (t, r') →
  soa_among ps t.
Proof.
  intros Hr Hp Ht Hps Hne. unfold assembleTrial. rewrite Hp. eval_types.
  intros (iti & r1 & Hiti & (soa & r2 & Hsoa & (dir & r3 & _ & [= <- _]
                                               )%bind_Ok)%bind_Ok)%bind_Ok.
  apply streaming_sampleFromDistribution in Hiti.
  destruct (sample_choice (BlockConfig.soa blockConfig) r1 ps)
    as (x & Hx & Hin); [by eapply suffix_unit|done..|].
  rewrite Hx in Hsoa. injection Hsoa as <- _.
  by exists x.
Qed.

Lemma assembleTrial_single i r t r' :
  BlockConfig.paradigm blockConfig ≠ "dual-task" →
  assembleTrial blockConfig taskSequence transitions congruencySequence i r
  = Ok (t, r') →
  single t.
Proof.
  intros Hp. unfold assembleTrial. rewrite !bool_decide_eq_false_2 by done.
  intros (iti & r1 & _ & (soa & r2 & [= <- _] & (dir & r3 & _ & [= <- _]
                                                )%bind_Ok)%bind_Ok)%bind_Ok.
  unfold single. cbn [meta seParams Meta.soa Meta.task2].
  split_and!; [done| |done]. by rewrite_tasks.
Qed.

Lemma trialLoop_Forall (P : Trial → Prop) k i trials r trials' r' :
  (∀ i r t r', unit_rng r →
     assembleTrial blockConfig taskSequence transitions congruencySequence
       i r = Ok (t, r') → P t) →
  unit_rng r →
  Forall P trials →
  trialLoop blockConfig taskSequence transitions congruencySequence
    k i trials r = Ok (trials', r') →
  Forall P trials' ∧ length trials' = (length trials + k)%nat.
Proof.
  intros HP. revert i trials r.
  induction k as [|k IH]; intros i trials r Hr Hacc; simpl.
  - intros [= <- _]. split; [done|lia].
  - intros (t & r1 & Ht & Hloop)%bind_Ok.
    apply IH in Hloop as [H1 H2].
    + split; [done|]. rewrite H2, length_app. simpl. lia.
    + eapply suffix_unit; [done|]. by eapply streaming_assembleTrial.
    + apply Forall_app. split; [done|]. apply Forall_singleton. eauto.
Qed.
End assemble.


(** ** Generation returns *)

Lemma returns_ret {A : Type} (a : A) : returns (mret a).
Proof. intros r. by exists a, r. Qed.

Lemma returns_random : returns random.
Proof. intros r. by eexists _, _. Qed.

Lemma returns_bind {A B : Type} (m : gen A) (f : A → gen B) :
  returns m → (∀ a, returns (f a)) → returns (m ≫= f).
Proof.
  intros Hm Hf r. destruct (Hm r) as (a & r1 & H1).
  destruct (Hf a r1) as (b & r2 & H2).
  exists b, r2. unfold mbind, gen_bind. by rewrite H1.
Qed.

Lemma returns_coin {A : Type} (a b : A) : returns (coin a b).
Proof. intros r. by eexists _, _. Qed.

Create HintDb returns discriminated.
#[local] Hint Resolve returns_ret returns_random returns_coin : returns.
#[local] Hint Extern 2 (returns (_ ≫= _)) =>
  apply returns_bind; [|intros] : returns.
#[local] Hint Extern 3 (returns (if ?b then _ else _)) =>
  destruct b : returns.
#[local] Hint Extern 3 (returns (match ?x with _ => _ end)) =>
  destruct x : returns.

Lemma returns_sampleFromDistribution config :
  known_type (Distribution.type config) →
  returns (sampleFromDistribution config).
Proof.
  intros Hk r.
  destruct (sampleFromDistribution config r) as [[v r1]|msg] eqn:E.
  - by exists v, r1.
  - destruct (proj1 (sample_throws config r)); [by exists msg|done].
Qed.

Lemma returns_assignDirections task congruency paradigm rso :
  returns (assignDirections task congruency paradigm rso).
Proof. unfold assignDirections. auto 12 with returns. Qed.

Lemma returns_generateTaskSequence numTrials sequenceType switchRate
    startTask :
  sequenceType = "Random" ∨ sequenceType = "AABB" →
  returns (generateTaskSequence numTrials sequenceType switchRate startTask).
Proof.
  intros Ht r.
  destruct (generateTaskSequence_length numTrials sequenceType switchRate
              startTask r Ht) as (s & r' & H & _).
  by exists s, r'.
Qed.

Lemma returns_generateCongruencySequence numTrials conditions proportions :
  returns (generateCongruencySequence numTrials conditions proportions).
Proof.
  intros r.
  destruct (generateCongruencySequence_perm numTrials conditions proportions r)
    as (s & r' & H & _).
  by exists s, r'.
Qed.

Lemma returns_assembleTrial blockConfig taskSequence transitions
    congruencySequence i :
  known_config blockConfig →
  returns (assembleTrial blockConfig taskSequence transitions
             congruencySequence i).
Proof.
  intros (_ & Hiti & Hsoa). unfold assembleTrial.
  apply returns_bind; [by apply returns_sampleFromDistribution|intros iti].
  apply returns_bind; [|intros soa].
  { case_bool_decide; [|apply returns_ret].
    apply returns_sampleFromDistribution. auto. }
  apply returns_bind; [apply returns_assignDirections|intros dir].
  apply returns_ret.
Qed.

Lemma returns_trialLoop blockConfig taskSequence transitions
    congruencySequence k i trials :
  known_config blockConfig →
  returns (trialLoop blockConfig taskSequence transitions congruencySequence
             k i trials).
Proof.
  intros Hk. revert i trials. induction k as [|k IH]; intros i trials; simpl.
  - apply returns_ret.
  - apply returns_bind; [by apply returns_assembleTrial|]. intros. apply IH.
Qed.

(** With a known configuration [generateBlockTrials] returns a block. *)
Lemma returns_generateBlockTrials blockConfig numTrials :
  known_config blockConfig →
  returns (generateBlockTrials blockConfig numTrials).
Proof.
  intros Hk. unfold generateBlockTrials.
  apply returns_bind.
  { destruct Hk as (Hs & _).
    case_bool_decide; by apply returns_generateTaskSequence. }
  intros ts.
  apply returns_bind; [apply returns_generateCongruencySequence|intros cs].
  by apply returns_trialLoop.
Qed.

(** ** The assertions of the test suite (test_engine.js) *)

(** [assert(a === b)] on two numbers. *)
Ltac asserts := by vm_compute.

Example test_switchTask :
  switchTask (VStr "mov") = VStr "or" ∧ switchTask (VStr "or") = VStr "mov".
Proof. done. Qed.

Example test_classifyTransitions :
  classifyTransitions
    [VStr "mov"; VStr "mov"; VStr "or"; VStr "or"; VStr "mov"]
  = [VStr "First"; VStr "Repeat"; VStr "Switch"; VStr "Repeat"; VStr "Switch"].
Proof. done. Qed.

Example test_single :
  let singleParams := buildTrialParams singleSpec in
  get singleParams "task_1" = VStr "mov"
  ∧ get singleParams "task_2" = VNull
  ∧ js_seq (get singleParams "start_1") (num 0) = true
  ∧ js_seq (get singleParams "dur_1") (num 500) = true
  ∧ js_seq (get singleParams "start_go_1") (num 200) = true
  ∧ js_seq (get singleParams "start_mov_1") (num 200) = true
  ∧ js_seq (get singleParams "dur_mov_1") (num 300) = true
  ∧ js_seq (get singleParams "coh_mov_1") (frac 8 10) = true
  ∧ js_seq (get singleParams "coh_or_1") (num 0) = true
  ∧ js_seq (get singleParams "dur_or_1") (num 0) = true
  ∧ js_seq (get singleParams "start_or_1") (num 0) = true
  ∧ js_seq (get singleParams "start_mov_2") (num 0) = true
  ∧ js_seq (get singleParams "dur_mov_2") (num 0) = true
  ∧ js_seq (get singleParams "dur_or_2") (num 0) = true
  ∧ size singleParams = 26%nat.
Proof. asserts. Qed.

Example test_dual :
  let dualParams := buildTrialParams dualSpec in
  get dualParams "task_2" = VStr "or"
  ∧ js_seq (get dualParams "coh_or_2") (frac 6 10) = true
  ∧ js_seq (get dualParams "coh_mov_2") (num 0) = true
  ∧ js_seq (get dualParams "start_or_2") (num 300) = true
  ∧ js_seq (get dualParams "dur_or_2") (num 300) = true
  ∧ js_seq (get dualParams "dur_mov_2") (num 0) = true
  ∧ js_seq (get dualParams "start_mov_2") (num 0) = true
  ∧ js_seq (get dualParams "start_2") (num 300) = true
  ∧ js_seq (get dualParams "start_go_2") (num 300) = true.
Proof. asserts. Qed.

Example test_dual_swapped :
  let dualSwappedParams := buildTrialParams dualSwappedSpec in
  js_seq (get dualSwappedParams "coh_or_1") (frac 8 10) = true
  ∧ js_seq (get dualSwappedParams "coh_mov_1") (num 0) = true
  ∧ js_seq (get dualSwappedParams "dur_mov_1") (num 0) = true
  ∧ js_seq (get dualSwappedParams "coh_mov_2") (frac 6 10) = true
  ∧ js_seq (get dualSwappedParams "coh_or_2") (num 0) = true
  ∧ js_seq (get dualSwappedParams "start_mov_2") (num 600) = true
  ∧ js_seq (get dualSwappedParams "dur_mov_2") (num 300) = true.
Proof. asserts. Qed.

Example test_dual_bivalent :
  let dualBivalentParams := buildTrialParams dualBivalentSpec in
  js_seq (get dualBivalentParams "dur_or_1") (num 300) = true
  ∧ js_seq (get dualBivalentParams "coh_or_1") (frac 8 10) = true
  ∧ js_seq (get dualBivalentParams "start_or_2") (num (-200)) = true
  ∧ js_seq (js_add (get dualBivalentParams "start_or_2")
              (js_add (get dualBivalentParams "start_or_1")
                      (get dualBivalentParams "dur_or_1"))) (num 300) = true.
Proof. asserts. Qed.

(** ** Instances on the configurations of the test suite *)

Lemma cycle_rng_unit : unit_rng cycle_rng.
Proof.
  intros i. unfold cycle_rng.
  destruct (i mod 4)%nat as [|[|[|?]]]; split; by vm_compute.
Defined.



(** * Further properties of the parameter builder *)

Lemma coherence_absent spec k :
  k ≠ "coh_mov_1" → k ≠ "coh_or_1" → k ≠ "coh_mov_2" → k ≠ "coh_or_2" →
  buildCoherenceParams spec !! k = None.
Proof.
  intros. unfold buildCoherenceParams.
  repeat case_match; by rewrite ?lookup_insert_ne, lookup_empty.
Qed.

Lemma direction_absent spec k :
  k ≠ "dir_mov_1" → k ≠ "dir_or_1" → k ≠ "dir_mov_2" → k ≠ "dir_or_2" →
  buildDirectionParams spec !! k = None.
Proof.
  intros. unfold buildDirectionParams.
  repeat case_match; by rewrite ?lookup_insert_ne, lookup_empty.
Qed.

(** A timing field of the returned record that is not a pathway's start or
    dur is the one [buildTimingParams] wrote. *)
Lemma built_timing_lookup spec k v :
  k ≠ "start_mov_1" → k ≠ "dur_mov_1" → k ≠ "start_or_1" → k ≠ "dur_or_1" →
  k ≠ "start_mov_2" → k ≠ "dur_mov_2" → k ≠ "start_or_2" → k ≠ "dur_or_2" →
  k ≠ "coh_mov_1" → k ≠ "coh_or_1" → k ≠ "coh_mov_2" → k ≠ "coh_or_2" →
  k ≠ "dir_mov_1" → k ≠ "dir_or_1" → k ≠ "dir_mov_2" → k ≠ "dir_or_2" →
  buildTimingParams spec !! k = Some v →
  buildTrialParams spec !! k = Some v.
Proof.
  intros. rewrite built_lookup by done. unfold silencedParams.
  rewrite !silence_lookup by done. unfold routedParams, spread.
  rewrite lookup_union_r by (by apply direction_absent).
  rewrite lookup_union_r by (by apply coherence_absent).
  by apply lookup_union_Some_l.
Qed.

(** [X1] The channel-level fields of the returned record are the absolute
    times of [buildTimingParams], whatever silencing and offset recomputation
    do to the pathways: the channel-1 cue spans [0, csi + dur_ch1), its go
    signal starts at [csi] and lasts [responseWindow]; with a second task the
    channel-2 cue and go signal start at [csi + soa], without one all four
    channel-2 fields are 0. *)
Theorem channel_fields_absolute (spec : TrialSpec.t) :
  let params := buildTrialParams spec in
  let noTask2 := js_seq (TrialSpec.task2 spec) VNull in
  let onset2 := js_add (TrialSpec.csi spec) (TrialSpec.soa spec) in
  params !! "start_1" = Some (num 0)
  ∧ params !! "dur_1"
    = Some (js_add (TrialSpec.csi spec) (TrialSpec.dur_ch1 spec))
  ∧ params !! "start_go_1" = Some (TrialSpec.csi spec)
  ∧ params !! "dur_go_1" = Some (TrialSpec.responseWindow spec)
  ∧ params !! "start_2" = Some (if noTask2 then num 0 else onset2)
  ∧ params !! "start_go_2" = Some (if noTask2 then num 0 else onset2)
  ∧ params !! "dur_2"
    = Some (if noTask2 then num 0 else TrialSpec.dur_ch2 spec)
  ∧ params !! "dur_go_2"
    = Some (if noTask2 then num 0 else TrialSpec.responseWindow spec).
Proof.
  cbv zeta. split_and!; apply built_timing_lookup; try done;
    unfold buildTimingParams;
    by destruct (js_seq (TrialSpec.task2 spec) VNull).
Qed.

Lemma js_seq_false a b : a ≠ b → js_seq a b = false.
Proof.
  intros. destruct a, b; unfold js_seq; try done; by apply bool_decide_eq_false_2.
Qed.

(** Evaluates the tests of a task literal against 'mov', 'or' and [null]. *)
Ltac literal_tests :=
  change (js_seq (VStr "mov") (VStr "mov")) with true;
  change (js_seq (VStr "or") (VStr "or")) with true;
  change (js_seq (VStr "mov") (VStr "or")) with false;
  change (js_seq (VStr "or") (VStr "mov")) with false;
  change (js_seq (VStr "mov") VNull) with false;
  change (js_seq (VStr "or") VNull) with false;
  cbn [negb].

Lemma coherence_routed spec c d :
  channel_task spec c = VStr (dimension_name d) →
  buildCoherenceParams spec !! field "coh" d c
  = Some (task_slot (TrialSpec.coherence spec) c)
  ∧ buildCoherenceParams spec !! field "coh" (other d) c
    = Some (distractor_slot (TrialSpec.coherence spec) c).
Proof.
  intros H. unfold buildCoherenceParams.
  destruct c, d; cbn [channel_task dimension_name] in H; rewrite H;
    literal_tests; repeat case_match; by vm_compute.
Qed.

Lemma direction_routed spec c d :
  channel_task spec c = VStr (dimension_name d) →
  buildDirectionParams spec !! field "dir" d c
  = Some (task_slot (TrialSpec.dir spec) c)
  ∧ buildDirectionParams spec !! field "dir" (other d) c
    = Some (distractor_slot (TrialSpec.dir spec) c).
Proof.
  intros H. unfold buildDirectionParams.
  destruct c, d; cbn [channel_task dimension_name] in H; rewrite H;
    literal_tests; repeat case_match; by vm_compute.
Qed.

(** Coherence and direction fields are never rewritten after routing. *)
Lemma built_coh_lookup spec d c :
  buildTrialParams spec !! field "coh" d c
  = buildCoherenceParams spec !! field "coh" d c.
Proof.
  rewrite built_lookup by (by destruct d, c). unfold silencedParams.
  rewrite !silence_lookup by (by destruct d, c). unfold routedParams, spread.
  rewrite lookup_union_r by (apply direction_absent; by destruct d, c).
  destruct (buildCoherenceParams spec !! field "coh" d c) as [v|] eqn:E.
  - by apply lookup_union_Some_l.
  - rewrite lookup_union_r by done.
    unfold buildTimingParams. case_match; destruct d, c; by vm_compute.
Qed.

Lemma built_dir_lookup spec d c :
  buildTrialParams spec !! field "dir" d c
  = buildDirectionParams spec !! field "dir" d c.
Proof.
  rewrite built_lookup by (by destruct d, c). unfold silencedParams.
  rewrite !silence_lookup by (by destruct d, c). unfold routedParams, spread.
  destruct (buildDirectionParams spec !! field "dir" d c) as [v|] eqn:E.
  - by apply lookup_union_Some_l.
  - rewrite lookup_union_r by done.
    rewrite lookup_union_r by (apply coherence_absent; by destruct d, c).
    unfold buildTimingParams. case_match; destruct d, c; by vm_compute.
Qed.

(** [X2] Routing: on each channel, the pathway named by the channel's task
    ('mov' or 'or') receives the task coherence and the task direction of
    that channel, and the other pathway of the channel receives the
    distractor coherence and the distractor direction; the later steps of
    [buildTrialParams] leave these eight fields as routed. *)
Theorem routing_by_task (spec : TrialSpec.t) (c : channel) (d : dimension) :
  channel_task spec c = VStr (dimension_name d) →
  let params := buildTrialParams spec in
  params !! field "coh" d c = Some (task_slot (TrialSpec.coherence spec) c)
  ∧ params !! field "coh" (other d) c
    = Some (distractor_slot (TrialSpec.coherence spec) c)
  ∧ params !! field "dir" d c = Some (task_slot (TrialSpec.dir spec) c)
  ∧ params !! field "dir" (other d) c
    = Some (distractor_slot (TrialSpec.dir spec) c).
Proof.
  intros H. cbv zeta. rewrite !built_coh_lookup, !built_dir_lookup.
  destruct (coherence_routed spec c d H), (direction_routed spec c d H).
  done.
Qed.

Lemma routing_by_task_witness :
  let params := buildTrialParams dualSwappedSpec in
  params !! "coh_mov_2" = Some (frac 6 10)
  ∧ params !! "coh_or_2" = Some (num 0)
  ∧ params !! "dir_mov_2" = Some (num 180)
  ∧ params !! "dir_or_2" = Some (num 0).
Proof. by apply (routing_by_task dualSwappedSpec Ch2 Mov). Defined.

(** [X3] A channel whose task label is neither 'mov' nor 'or' (and, for
    channel 2, not [null]) is routed nowhere: the returned record has no
    coherence and no direction field for that channel, and no error is
    raised. *)
Theorem unknown_task_unrouted (spec : TrialSpec.t) (c : channel)
    (d : dimension) :
  channel_task spec c ≠ VStr "mov" →
  channel_task spec c ≠ VStr "or" →
  (c = Ch2 → TrialSpec.task2 spec ≠ VNull) →
  buildTrialParams spec !! field "coh" d c = None
  ∧ buildTrialParams spec !! field "dir" d c = None.
Proof.
  intros Hm Ho Hn. rewrite built_coh_lookup, built_dir_lookup.
  apply js_seq_false in Hm, Ho.
  unfold buildCoherenceParams, buildDirectionParams.
  destruct c; cbn [channel_task] in Hm, Ho; rewrite ?Hm, ?Ho.
  - split; repeat case_match; destruct d; by vm_compute.
  - rewrite (js_seq_false _ _ (Hn eq_refl)). cbn [negb].
    split; repeat case_match; destruct d; by vm_compute.
Qed.

Lemma unknown_task_unrouted_witness :
  buildTrialParams
    (TrialSpec.mk (VStr "foo") VNull (num 200) (num 300) (num 0) (num 0)
       (num 2000) (mkQuad (frac 8 10) (num 0) (num 0) (num 0))
       (mkQuad (num 0) (num 0) (num 0) (num 0))) !! "coh_mov_1" = None.
Proof.
  by destruct (unknown_task_unrouted
    (TrialSpec.mk (VStr "foo") VNull (num 200) (num 300) (num 0) (num 0)
       (num 2000) (mkQuad (frac 8 10) (num 0) (num 0) (num 0))
       (mkQuad (num 0) (num 0) (num 0) (num 0))) Ch1 Mov) as [H _].
Defined.

Lemma get_Some (o : obj) k : is_Some (o !! k) → o !! k = Some (get o k).
Proof. intros [v H]. unfold get. by rewrite H. Qed.

Lemma built_has_timing spec d c :
  is_Some (buildTrialParams spec !! field "start" d c)
  ∧ is_Some (buildTrialParams spec !! field "dur" d c).
Proof.
  destruct (silenced_has_timing spec d c).
  unfold buildTrialParams. case_match; [|done].
  split; by repeat apply recompute_is_Some.
Qed.

(** [X4] Without a second task ([task2 = null]) channel 2 is completely
    inactive in the returned record: for both pathways the start, dur,
    coherence and direction fields are all 0. *)
Theorem single_task_channel2_inactive (spec : TrialSpec.t) (d : dimension) :
  TrialSpec.task2 spec = VNull →
  let params := buildTrialParams spec in
  params !! field "start" d Ch2 = Some (num 0)
  ∧ params !! field "dur" d Ch2 = Some (num 0)
  ∧ params !! field "coh" d Ch2 = Some (num 0)
  ∧ params !! field "dir" d Ch2 = Some (num 0).
Proof.
  intros H. cbv zeta.
  assert (buildTrialParams spec !! field "coh" d Ch2 = Some (num 0)) as Hc.
  { rewrite built_coh_lookup. unfold buildCoherenceParams. rewrite H.
    repeat case_match; destruct d; by vm_compute. }
  assert (get (routedParams spec) (field "coh" d Ch2) = num 0) as Hr.
  { rewrite <-silenced_coh, <-built_other by (by destruct d).
    unfold get. by rewrite Hc. }
  destruct (silenced_zero spec d Ch2 Hr) as [Hs Hd].
  destruct (built_has_timing spec d Ch2) as [Hs' Hd'].
  split_and!; [| |done|].
  - rewrite (get_Some _ _ Hs'). by rewrite built_silent_ch2, Hs.
  - rewrite (get_Some _ _ Hd'). by rewrite built_other, Hd by (by destruct d).
  - rewrite built_dir_lookup. unfold buildDirectionParams. rewrite H.
    repeat case_match; destruct d; by vm_compute.
Qed.

Lemma single_task_channel2_inactive_witness :
  let params := buildTrialParams singleSpec in
  params !! "start_or_2" = Some (num 0)
  ∧ params !! "dur_or_2" = Some (num 0)
  ∧ params !! "coh_or_2" = Some (num 0)
  ∧ params !! "dir_or_2" = Some (num 0).
Proof. by apply (single_task_channel2_inactive singleSpec Ori). Defined.

Lemma sub_zero_end x : numeric x → js_sub x (js_add (num 0) (num 0)) = x.
Proof.
  intros [q ->]. unfold js_sub, js_add, num. cbn. f_equal.
  rewrite Z2Qc_inj_0. ring.
Qed.

Lemma sub_common_onset c s d :
  numeric c → numeric s → numeric d →
  js_sub (js_add c s) (js_add c d) = js_sub s d.
Proof.
  intros [x ->] [y ->] [z ->]. unfold js_sub, js_add. cbn. f_equal. ring.
Qed.



(** * Further properties of the sequence generators *)

Lemma switchTask_is_task task : is_task (switchTask task).
Proof. unfold switchTask. case_match; [by right|by left]. Qed.

Lemma switchTask_ne task : switchTask task ≠ task.
Proof.
  unfold switchTask. destruct (js_seq task (VStr "mov")) eqn:E.
  - apply js_seq_true in E. by subst.
  - intros <-. done.
Qed.

Lemma arr_get_prev (sequence : list jsval) prev :
  last sequence = Some prev →
  arr_get id sequence (Z.of_nat (length sequence) - 1) = prev.
Proof.
  rewrite last_lookup. intros H.
  assert (length sequence ≠ 0)%nat by (by destruct sequence).
  replace (Z.of_nat (length sequence) - 1)%Z
    with (Z.of_nat (pred (length sequence))) by lia.
  by apply arr_get_lookup.
Qed.

(** An invariant of the [Random] loop: it holds of the result when it holds
    of the start and every push of the loop body keeps it. *)
Lemma randomLoop_invariant (P : list jsval → Prop) k switchRate i sequence r :
  unit_rng r →
  length sequence = i →
  sequence ≠ [] →
  P sequence →
  (∀ s prev q, (0 ≤ q < 1)%Qc → last s = Some prev → P s →
     P (s ++ [if bool_decide (q < switchRate / Qc_of_Z 100)%Qc
              then switchTask prev else prev])%list) →
  ∃ sequence' r',
    randomLoop k switchRate i sequence r = Ok (sequence', r')
    ∧ P sequence'
    ∧ length sequence' = (length sequence + k)%nat.
Proof.
  intros Hr Hlen Hne HP Hstep. revert i sequence r Hr Hlen Hne HP.
  induction k as [|k IH]; intros i sequence r Hr Hlen Hne HP.
  - exists sequence, r. split_and!; [done..|lia].
  - cbn [randomLoop]. unfold mbind at 1, gen_bind at 1. rewrite random_run.
    destruct (last sequence) as [prev|] eqn:Hlast;
      [|by apply last_None in Hlast].
    rewrite <-Hlen, (arr_get_prev _ _ Hlast).
    edestruct (IH (S (length sequence))) as (s' & r' & -> & HP' & Hl');
      [by apply unit_rng_tail| |by destruct sequence|by apply Hstep|].
    { rewrite length_app. simpl. lia. }
    exists s', r'. split_and!; [done..|].
    rewrite Hl', length_app. simpl. lia.
Qed.

Lemma rate_zero_never (switchRate q : Qc) :
  (switchRate ≤ 0)%Qc → (0 ≤ q)%Qc →
  bool_decide (q < switchRate / Qc_of_Z 100)%Qc = false.
Proof.
  intros Hs Hq. apply bool_decide_eq_false_2, Qcle_not_lt.
  etrans; [|exact Hq].
  rewrite <-(Qcmult_0_l (/ Qc_of_Z 100)). unfold Qcdiv.
  apply Qcmult_le_compat_r; [done|by vm_compute].
Qed.

Lemma rate_full_always (switchRate q : Qc) :
  (Qc_of_Z 100 ≤ switchRate)%Qc → (q < 1)%Qc →
  bool_decide (q < switchRate / Qc_of_Z 100)%Qc = true.
Proof.
  intros Hs Hq. apply bool_decide_eq_true_2.
  eapply Qclt_le_trans; [exact Hq|].
  replace 1%Qc with (Qc_of_Z 100 * / Qc_of_Z 100)%Qc
    by (apply Qc_is_canon; by vm_compute).
  unfold Qcdiv. apply Qcmult_le_compat_r; [done|by vm_compute].
Qed.

(** [X6] With ['Random'] and a switch rate of 0 (or below) no trial ever
    switches: the sequence consists of [max(numTrials, 1)] copies of the
    first task. *)
Theorem random_rate_zero_repeats (numTrials : Z) (switchRate : Qc)
    (startTask : jsval) (r : rng) :
  unit_rng r →
  (switchRate ≤ 0)%Qc →
  ∃ r',
    generateTaskSequence numTrials "Random" switchRate startTask r
    = Ok (replicate (Z.to_nat (Z.max numTrials 1)) (firstTask startTask r).1,
          r').
Proof.
  intros Hr Hs. rewrite generateTaskSequence_unfold.
  assert (unit_rng (firstTask startTask r).2) as Hr1.
  { destruct startTask; simpl; auto using unit_rng_tail. }
  destruct (firstTask startTask r) as [first r1]. eval_types.
  cbn [fst snd] in *.
  destruct (randomLoop_invariant (Forall (first =.))
              (Z.to_nat (numTrials - 1)) switchRate 1 [first] r1)
    as (s & r' & -> & HP & Hlen); [done..|by constructor| |].
  { intros s prev q [Hq _] Hlast HP. apply Forall_app. split; [done|].
    apply Forall_singleton. rewrite rate_zero_never by done.
    rewrite Forall_forall in HP. apply HP.
    rewrite last_lookup in Hlast. by eapply list_elem_of_lookup_2. }
  exists r'. do 2 f_equal. symmetry. apply replicate_as_Forall.
  split; [|done]. rewrite Hlen. simpl. lia.
Qed.

Lemma random_rate_zero_repeats_witness :
  ∃ r',
    generateTaskSequence 5 "Random" (Qc_of_Z 0) (VStr "or") cycle_rng
    = Ok (replicate 5 (VStr "or"), r').
Proof.
  apply (random_rate_zero_repeats 5 (Qc_of_Z 0) (VStr "or") cycle_rng).
  - apply cycle_rng_unit.
  - by vm_compute.
Defined.

(** [X7] With ['Random'] and a switch rate of 100 (or above) every trial
    switches: each element after the first is [switchTask] of its
    predecessor, hence different from it. *)
Theorem random_rate_full_alternates (numTrials : Z) (switchRate : Qc)
    (startTask : jsval) (r : rng) :
  unit_rng r →
  (Qc_of_Z 100 ≤ switchRate)%Qc →
  ∃ sequence r',
    generateTaskSequence numTrials "Random" switchRate startTask r
    = Ok (sequence, r')
    ∧ length sequence = Z.to_nat (Z.max numTrials 1)
    ∧ ∀ i a b, sequence !! i = Some a → sequence !! S i = Some b →
               b = switchTask a ∧ b ≠ a.
Proof.
  intros Hr Hs. rewrite generateTaskSequence_unfold.
  assert (unit_rng (firstTask startTask r).2) as Hr1.
  { destruct startTask; simpl; auto using unit_rng_tail. }
  destruct (firstTask startTask r) as [first r1]. eval_types.
  cbn [fst snd] in *.
  destruct (randomLoop_invariant
              (λ s, ∀ i a b, s !! i = Some a → s !! S i = Some b →
                             b = switchTask a)
              (Z.to_nat (numTrials - 1)) switchRate 1 [first] r1)
    as (s & r' & -> & HP & Hlen); [done..|by intros [|?] | |].
  { intros s prev q [_ Hq] Hlast HP i a b Ha Hb.
    rewrite rate_full_always in Hb by done.
    rewrite last_lookup in Hlast.
    destruct (decide (S i < length s)%nat).
    - rewrite lookup_app_l in Ha, Hb by lia. by eapply HP.
    - apply lookup_lt_Some in Hb as Hb'. rewrite length_app in Hb'.
      simpl in Hb'.
      rewrite lookup_app_l in Ha by lia.
      rewrite lookup_app_r in Hb by lia.
      replace (S i - length s)%nat with 0%nat in Hb by lia.
      replace (pred (length s)) with i in Hlast by lia.
      simpl in Hb. congruence. }
  exists s, r'. split_and!; [done|rewrite Hlen; simpl; lia|].
  intros i a b Ha Hb. rewrite (HP i a b Ha Hb).
  split; [done|apply switchTask_ne].
Qed.

Lemma random_rate_full_alternates_witness :
  ∃ sequence r',
    generateTaskSequence 10 "Random" (Qc_of_Z 100) (VStr "mov") cycle_rng
    = Ok (sequence, r')
    ∧ length sequence = 10%nat
    ∧ ∀ i a b, sequence !! i = Some a → sequence !! S i = Some b →
               b = switchTask a ∧ b ≠ a.
Proof.
  apply (random_rate_full_alternates 10 (Qc_of_Z 100) (VStr "mov") cycle_rng).
  - apply cycle_rng_unit.
  - by vm_compute.
Defined.

Lemma aabbLoop_tasks k i sequence :
  length sequence = i →
  sequence ≠ [] →
  Forall is_task sequence →
  Forall is_task (aabbLoop k i sequence).
Proof.
  revert i sequence. induction k as [|k IH]; intros i sequence Hlen Hne HP;
    [done|].
  cbn [aabbLoop]. destruct (last sequence) as [prev|] eqn:Hlast;
    [|by apply last_None in Hlast].
  rewrite <-Hlen, (arr_get_prev _ _ Hlast).
  apply IH; [rewrite length_app; simpl; lia|by destruct sequence|].
  apply Forall_app. split; [done|]. apply Forall_singleton.
  case_bool_decide; [apply switchTask_is_task|].
  rewrite Forall_forall in HP. apply HP.
  rewrite last_lookup in Hlast. by eapply list_elem_of_lookup_2.
Qed.

Lemma generateTaskSequence_tasks numTrials sequenceType switchRate
    startTask r :
  unit_rng r →
  startTask = VNull ∨ startTask = VUndefined ∨ is_task startTask →
  sequenceType = "Random" ∨ sequenceType = "AABB" →
  ∃ sequence r',
    generateTaskSequence numTrials sequenceType switchRate startTask r
    = Ok (sequence, r')
    ∧ Forall is_task sequence.
Proof.
  intros Hr Hs Ht. rewrite generateTaskSequence_unfold.
  assert (is_task (firstTask startTask r).1
          ∧ unit_rng (firstTask startTask r).2) as [Hf Hr1].
  { destruct Hs as [-> | [-> | [-> | ->]]]; simpl;
      try (split; [case_bool_decide; [by left|by right]
                  |by apply unit_rng_tail]);
      (split; [|done]); [by left|by right]. }
  destruct (firstTask startTask r) as [first r1]. cbn [fst snd] in *.
  destruct Ht as [-> | ->]; eval_types.
  - destruct (randomLoop_invariant (Forall is_task)
                (Z.to_nat (numTrials - 1)) switchRate 1 [first] r1)
      as (s & r' & -> & HP & _); [done..|by constructor| |by exists s, r'].
    intros s prev q _ Hlast HP. apply Forall_app. split; [done|].
    apply Forall_singleton. case_bool_decide; [apply switchTask_is_task|].
    rewrite Forall_forall in HP. apply HP.
    rewrite last_lookup in Hlast. by eapply list_elem_of_lookup_2.
  - eexists _, _. split; [done|].
    apply aabbLoop_tasks; [done..|by constructor].
Qed.

(** [X8] When [startTask] is 'mov', 'or', [null] or [undefined], every
    element of the generated sequence is 'mov' or 'or', for both sequence
    types and every outcome of the draws. *)
Theorem task_sequence_holds_tasks (numTrials : Z) (sequenceType : string)
    (switchRate : Qc) (startTask : jsval) (r : rng) :
  unit_rng r →
  startTask = VNull ∨ startTask = VUndefined ∨ is_task startTask →
  sequenceType = "Random" ∨ sequenceType = "AABB" →
  ∃ sequence r',
    generateTaskSequence numTrials sequenceType switchRate startTask r
    = Ok (sequence, r')
    ∧ Forall is_task sequence.
Proof. apply generateTaskSequence_tasks. Qed.

Lemma task_sequence_holds_tasks_witness :
  ∃ sequence r',
    generateTaskSequence 6 "Random" (Qc_of_Z 50) VNull cycle_rng
    = Ok (sequence, r')
    ∧ Forall is_task sequence.
Proof.
  apply (task_sequence_holds_tasks 6 "Random" (Qc_of_Z 50) VNull cycle_rng).
  - apply cycle_rng_unit.
  - by left.
  - by left.
Defined.

(** [X9] [generateTaskSequence] throws exactly when [sequenceType] is
    neither 'Random' nor 'AABB', with the message
    ["Unknown sequenceType: "] followed by the type, whatever the other
    arguments are (also for [numTrials = 0]). *)
Theorem unknown_sequence_type_throws (numTrials : Z) (sequenceType : string)
    (switchRate : Qc) (startTask : jsval) (r : rng) :
  (sequenceType ≠ "Random" ∧ sequenceType ≠ "AABB" →
   generateTaskSequence numTrials sequenceType switchRate startTask r
   = Throw ("Unknown sequenceType: " +:+ sequenceType))
  ∧ (sequenceType = "Random" ∨ sequenceType = "AABB" →
     ∀ msg,
       generateTaskSequence numTrials sequenceType switchRate startTask r
       ≠ Throw msg).
Proof.
  split.
  - intros [H1 H2]. rewrite generateTaskSequence_unfold.
    destruct (firstTask startTask r). by rewrite !bool_decide_eq_false_2.
  - intros Ht msg.
    destruct (generateTaskSequence_length numTrials sequenceType switchRate
                startTask r Ht) as (s & r' & -> & _).
    done.
Qed.

Lemma unknown_sequence_type_throws_witness :
  generateTaskSequence 0 "ABBA" (Qc_of_Z 50) VNull cycle_rng
  = Throw "Unknown sequenceType: ABBA".
Proof.
  by apply (unknown_sequence_type_throws 0 "ABBA" (Qc_of_Z 50) VNull cycle_rng).
Defined.

(** * Further properties of the transition classifier *)

(** [X10] [classifyTransitions] returns one label per trial; the label at
    index 0 is 'First', and at an index [i ≥ 1] it is 'Repeat' when the task
    is strictly equal to the task at [i - 1] and 'Switch' otherwise. *)
Theorem classifyTransitions_labels (taskSequence : list jsval) :
  length (classifyTransitions taskSequence) = length taskSequence
  ∧ (∀ task, taskSequence !! 0%nat = Some task →
       classifyTransitions taskSequence !! 0%nat = Some (VStr "First"))
  ∧ (∀ i previous task,
       taskSequence !! i = Some previous →
       taskSequence !! S i = Some task →
       classifyTransitions taskSequence !! S i
       = Some (if js_seq task previous then VStr "Repeat"
               else VStr "Switch")).
Proof.
  unfold classifyTransitions. split_and!.
  - apply length_imap.
  - intros task H. by rewrite list_lookup_imap, H.
  - intros i previous task Hp Ht. rewrite list_lookup_imap, Ht. simpl.
    replace (Z.of_nat (S i) - 1)%Z with (Z.of_nat i) by lia.
    by rewrite (arr_get_lookup _ _ _ Hp).
Qed.

Lemma classifyTransitions_labels_witness :
  classifyTransitions [VStr "mov"; VStr "or"] !! 1%nat = Some (VStr "Switch").
Proof.
  destruct (classifyTransitions_labels [VStr "mov"; VStr "or"])
    as (_ & _ & H).
  by apply (H 0%nat (VStr "mov") (VStr "or")).
Defined.

(** [X11] The transitions of an ['AABB'] sequence: with at least one trial
    and a start task that is 'mov', 'or' or [null], the label is 'First' at
    index 0, 'Switch' at every even index from 2 on and 'Repeat' at every
    odd index. *)
Theorem aabb_transitions (numTrials : Z) (switchRate : Qc)
    (startTask : jsval) (r : rng) :
  (1 ≤ numTrials)%Z →
  startTask = VNull ∨ is_task startTask →
  ∃ sequence r',
    generateTaskSequence numTrials "AABB" switchRate startTask r
    = Ok (sequence, r')
    ∧ ∀ i, (i < Z.to_nat numTrials)%nat →
           classifyTransitions sequence !! i
           = Some (if bool_decide (i = 0)%nat then VStr "First"
                   else if bool_decide (Z.of_nat i mod 2 = 0)%Z
                        then VStr "Switch" else VStr "Repeat").
Proof.
  intros Hn Hs. pose proof (firstTask_is_task startTask r Hs) as Hf.
  rewrite generateTaskSequence_unfold.
  destruct (firstTask startTask r) as [first r1]. eval_types.
  cbn [fst snd] in *. eexists _, _. split; [done|]. intros i Hi.
  set (sequence := aabbLoop (Z.to_nat (numTrials - 1)) 1 [first]).
  assert (∀ j, (j < Z.to_nat numTrials)%nat →
               sequence !! j = Some (aabb_at first j)) as Hpat.
  { intros j Hj. apply aabbLoop_pattern; [done..| |lia].
    intros [|?] ?; [done|lia]. }
  unfold classifyTransitions.
  rewrite list_lookup_imap, (Hpat i Hi). simpl.
  destruct i as [|i]; [done|].
  rewrite bool_decide_eq_false_2 by done.
  replace (Z.of_nat (S i) - 1)%Z with (Z.of_nat i) by lia.
  rewrite (arr_get_lookup _ _ _ (Hpat i ltac:(lia))).
  unfold aabb_at.
  destruct Hf as [-> | ->]; repeat case_bool_decide; try done;
    exfalso; Z.to_euclidean_division_equations; lia.
Qed.

Lemma aabb_transitions_witness :
  ∃ sequence r',
    generateTaskSequence 8 "AABB" (Qc_of_Z 0) (VStr "mov") cycle_rng
    = Ok (sequence, r')
    ∧ classifyTransitions sequence !! 2%nat = Some (VStr "Switch").
Proof.
  destruct (aabb_transitions 8 (Qc_of_Z 0) (VStr "mov") cycle_rng)
    as (s & r' & H & Hl); [lia|right; by left|].
  exists s, r'. split; [done|]. by apply (Hl 2%nat); lia.
Defined.

(** * Further properties of the congruency generator *)


(** [X12] With a single condition the proportions are never read: the
    sequence is [numTrials] copies of that condition (none when [numTrials]
    is negative). *)
Theorem single_condition_fills (numTrials : Z) (condition : string)
    (proportions : list Qc) (r : rng) :
  ∃ r',
    generateCongruencySequence numTrials [condition] proportions r
    = Ok (replicate (Z.to_nat numTrials) condition, r').
Proof.
  destruct (generateCongruencySequence_perm numTrials [condition]
              proportions r) as (s & r' & -> & Hp).
  exists r'. do 2 f_equal. symmetry. apply replicate_Permutation.
  rewrite Hp. cbn [assignLoop length]. rewrite bool_decide_eq_true_2 by done.
  rewrite num_sub, iterations_num, Z.sub_0_r. done.
Qed.

Lemma assignLoop_layout numTrials proportions len rest i sequence assigned :
  (i + length rest = len)%nat →
  (len - 1 ≤ length proportions)%nat →
  assignLoop (num numTrials) proportions len i rest sequence (num assigned)
  = (sequence ++ layout numTrials rest (drop i proportions) assigned)%list.
Proof.
  revert i sequence assigned.
  induction rest as [|c rest IH]; intros i sequence a Hi Hlen.
  - cbn. by rewrite app_nil_r.
  - cbn [assignLoop]. destruct rest as [|c' rest].
    + rewrite bool_decide_eq_true_2 by (simpl in Hi; lia).
      rewrite num_sub, iterations_num. done.
    + rewrite bool_decide_eq_false_2 by (simpl in Hi; lia).
      destruct (lookup_lt_is_Some_2 proportions i) as [p Hp];
        [simpl in Hi; lia|].
      assert (js_round (js_mul (num numTrials)
                (arr_get VNum proportions (Z.of_nat i)))
              = num (rounded numTrials p)) as ->.
      { unfold arr_get. rewrite bool_decide_eq_true_2 by lia.
        by rewrite Nat2Z.id, Hp. }
      rewrite num_add, iterations_num.
      rewrite IH by (simpl in *; lia).
      rewrite (drop_S _ _ _ Hp). cbn [layout]. by rewrite <-app_assoc.
Qed.



Lemma assignLoop_labels numTrials proportions len conditions rest i sequence
    assigned :
  rest ⊆ conditions →
  sequence ⊆ conditions →
  assignLoop numTrials proportions len i rest sequence assigned ⊆ conditions.
Proof.
  revert i sequence assigned.
  induction rest as [|c rest IH]; intros i sequence a Hrest Hseq; [done|].
  cbn [assignLoop]. apply IH; [set_solver|].
  intros x [Hx|Hx%elem_of_replicate_inv]%elem_of_app; set_solver.
Qed.

(** [X15] The generator never invents a label: whatever the arguments and
    the draws, every label of the returned sequence is one of
    [conditions]; with no condition the sequence is empty. *)
Theorem congruency_sequence_labels (numTrials : Z) (conditions : list string)
    (proportions : list Qc) (r : rng) :
  ∃ sequence r',
    generateCongruencySequence numTrials conditions proportions r
    = Ok (sequence, r')
    ∧ sequence ⊆ conditions.
Proof.
  destruct (generateCongruencySequence_perm numTrials conditions proportions r)
    as (s & r' & H & Hp).
  exists s, r'. split; [done|]. intros x Hx. rewrite Hp in Hx.
  revert x Hx. apply assignLoop_labels; [by intros ?|].
  by intros ? ?%elem_of_nil.
Qed.

Lemma rounded_bounds (numTrials : Z) (p : Qc) :
  (0 ≤ numTrials)%Z → (0 ≤ p ≤ 1)%Qc →
  (0 ≤ rounded numTrials p ≤ numTrials)%Z.
Proof.
  intros Hn [H0 H1]. unfold rounded.
  assert (0 ≤ Qc_of_Z numTrials)%Qc as Hn'.
  { pose proof (proj1 (Z2Qc_inj_le 0 numTrials) Hn) as H.
    by rewrite Z2Qc_inj_0 in H. }
  assert (0 ≤ Qc_of_Z numTrials * p ≤ Qc_of_Z numTrials)%Qc as [Hlo Hhi].
  { split.
    - rewrite <-(Qcmult_0_l p). by apply Qcmult_le_compat_r.
    - rewrite <-(Qcmult_1_r (Qc_of_Z numTrials)) at 2.
      rewrite !(Qcmult_comm (Qc_of_Z numTrials)).
      by apply Qcmult_le_compat_r. }
  split.
  - rewrite <-(Qfloor_Z 0). apply Qfloor_resp_le.
    change (0 ≤ Qc_of_Z numTrials * p + half)%Qc.
    rewrite <-(Qcplus_0_r 0). apply Qcplus_le_compat; [done|by vm_compute].
  - apply Z.lt_succ_r. rewrite Zlt_Qlt.
    eapply Qle_lt_trans; [apply Qfloor_le|].
    change (Qc_of_Z numTrials * p + half < Qc_of_Z (Z.succ numTrials))%Qc.
    eapply Qcle_lt_trans; [by apply Qcplus_le_compat; [exact Hhi|]|].
    unfold Z.succ. rewrite Z2Qc_inj_add.
    rewrite !(Qcplus_comm (Qc_of_Z numTrials)).
    apply Qcplus_lt_mono_r. by vm_compute.
Qed.



(** * Further properties of the direction assigner *)

(** [X17] The direction table of [assignDirections].  In a dual-task call
    the two channel directions are two independent coin flips between 0 and
    180 (the first two draws) and both distractor directions are 0, whatever
    [task], [congruency] and [rso] are.  With any other paradigm the primary
    direction is a coin flip between 0 and 180 and channel 2 is 0; the
    distractor equals the primary direction for 'congruent', is the other
    horizontal direction for 'incongruent', and is a second coin flip
    between 90 and 270 for 'neutral'. *)
Theorem assignDirections_table (task congruency rso : jsval)
    (paradigm : string) (r : rng) :
  let flip (i : nat) (a b : jsval) :=
    if bool_decide (r i < half)%Qc then a else b in
  assignDirections task congruency "dual-task" rso r
  = Ok (mkQuad (flip 0%nat (num 0) (num 180)) (num 0)
          (flip 1%nat (num 0) (num 180)) (num 0), tail (tail r))
  ∧ (paradigm ≠ "dual-task" →
     assignDirections task (VStr "congruent") paradigm rso r
     = Ok (mkQuad (flip 0%nat (num 0) (num 180))
             (flip 0%nat (num 0) (num 180)) (num 0) (num 0), tail r)
     ∧ assignDirections task (VStr "incongruent") paradigm rso r
       = Ok (mkQuad (flip 0%nat (num 0) (num 180))
               (flip 0%nat (num 180) (num 0)) (num 0) (num 0), tail r)
     ∧ assignDirections task (VStr "neutral") paradigm rso r
       = Ok (mkQuad (flip 0%nat (num 0) (num 180))
               (flip 1%nat (num 90) (num 270)) (num 0) (num 0),
             tail (tail r))).
Proof.
  cbv zeta. split; [done|].
  intros Hp. unfold assignDirections, coin.
  rewrite bool_decide_eq_false_2 by done.
  unfold mbind, gen_bind, random, mret, gen_ret.
  change (js_seq (VStr "congruent") (VStr "congruent")) with true.
  change (js_seq (VStr "incongruent") (VStr "congruent")) with false.
  change (js_seq (VStr "incongruent") (VStr "incongruent")) with true.
  change (js_seq (VStr "neutral") (VStr "congruent")) with false.
  change (js_seq (VStr "neutral") (VStr "incongruent")) with false.
  change (js_seq (VStr "neutral") (VStr "neutral")) with true.
  cbv iota.
  split_and!; [done| |done].
  by destruct (bool_decide (r 0%nat < half)%Qc).
Qed.

Lemma assignDirections_table_witness :
  assignDirections (VStr "or") (VStr "incongruent") "single-task"
    (VStr "identical") cycle_rng
  = Ok (mkQuad (num 0) (num 180) (num 0) (num 0), tail cycle_rng).
Proof.
  by destruct (assignDirections_table (VStr "or") VNull (VStr "identical")
                 "single-task" cycle_rng) as (_ & H);
    destruct H as (_ & H & _).
Defined.

(** * Further properties of block generation *)

(** [X18] For a configuration whose sequence type and distribution types
    are known, [generateBlockTrials] returns a block of exactly [numTrials]
    trials (none when [numTrials] is negative). *)
Theorem block_has_numTrials (blockConfig : BlockConfig.t) (numTrials : Z)
    (r : rng) :
  unit_rng r →
  known_config blockConfig →
  ∃ trials r',
    generateBlockTrials blockConfig numTrials r = Ok (trials, r')
    ∧ length trials = Z.to_nat numTrials.
Proof.
  intros Hr Hk.
  destruct (returns_generateBlockTrials blockConfig numTrials Hk r)
    as (trials & r' & H).
  exists trials, r'. split; [done|].
  unfold generateBlockTrials in H.
  apply bind_Ok in H as (ts & r1 & Hts & (cs & r2 & Hcs & Hloop)%bind_Ok).
  eapply (trialLoop_Forall _ _ _ _ (λ _, True)) in Hloop as [_ ->];
    [done..| |done].
  eapply suffix_unit; [done|].
  eapply suffix_trans; [|by eapply streaming_generateCongruencySequence].
  destruct (bool_decide _); by eapply streaming_generateTaskSequence.
Qed.

Lemma block_has_numTrials_witness :
  ∃ trials r',
    generateBlockTrials pureConfig 40 cycle_rng = Ok (trials, r')
    ∧ length trials = 40%nat.
Proof.
  apply (block_has_numTrials pureConfig 40 cycle_rng).
  - apply cycle_rng_unit.
  - split_and!; [by left|by left|done].
Defined.

(** [X19] Configuration errors surface from block generation: an unknown
    [sequenceType] throws ["Unknown sequenceType: ..."] for every
    [numTrials]; with a known sequence type and at least one trial, an
    unknown [iti] distribution type throws the sampler's error. *)
Theorem block_configuration_errors (blockConfig : BlockConfig.t)
    (numTrials : Z) (r : rng) :
  (BlockConfig.sequenceType blockConfig ≠ "Random" →
   BlockConfig.sequenceType blockConfig ≠ "AABB" →
   generateBlockTrials blockConfig numTrials r
   = Throw ("Unknown sequenceType: " +:+ BlockConfig.sequenceType blockConfig))
  ∧ (BlockConfig.sequenceType blockConfig = "Random"
     ∨ BlockConfig.sequenceType blockConfig = "AABB" →
     (1 ≤ numTrials)%Z →
     ¬ known_type (Distribution.type (BlockConfig.iti blockConfig)) →
     generateBlockTrials blockConfig numTrials r
     = Throw ("sampleFromDistribution: unknown type '"
                +:+ Distribution.type (BlockConfig.iti blockConfig) +:+ "'")).
Proof.
  split.
  - intros H1 H2. unfold generateBlockTrials, mbind at 1, gen_bind at 1.
    assert (∀ startTask,
      generateTaskSequence numTrials (BlockConfig.sequenceType blockConfig)
        (BlockConfig.switchRate blockConfig) startTask r
      = Throw ("Unknown sequenceType: "
                 +:+ BlockConfig.sequenceType blockConfig)) as Ht.
    { intros startTask. rewrite generateTaskSequence_unfold.
      destruct (firstTask startTask r).
      by rewrite !bool_decide_eq_false_2. }
    by destruct (bool_decide _); rewrite Ht.
  - intros Ht Hn Hiti. unfold generateBlockTrials.
    unfold mbind at 1, gen_bind at 1.
    assert (∃ ts r1,
      (if bool_decide (BlockConfig.paradigm blockConfig = "dual-task")
       then generateTaskSequence numTrials
              (BlockConfig.sequenceType blockConfig)
              (BlockConfig.switchRate blockConfig)
              (BlockConfig.task1 blockConfig)
       else generateTaskSequence numTrials
              (BlockConfig.sequenceType blockConfig)
              (BlockConfig.switchRate blockConfig)
              (BlockConfig.startTask blockConfig)) r = Ok (ts, r1))
      as (ts & r1 & ->).
    { destruct (bool_decide _);
        edestruct generateTaskSequence_length as (ts & r1 & -> & _);
        eauto. }
    unfold mbind at 1, gen_bind at 1.
    edestruct generateCongruencySequence_perm as (cs & r2 & -> & _).
    destruct (Z.to_nat numTrials) as [|k] eqn:Ek; [lia|].
    cbn [trialLoop]. unfold mbind at 1, gen_bind at 1.
    unfold assembleTrial. unfold mbind at 1, gen_bind at 1.
    assert (sampleFromDistribution (BlockConfig.iti blockConfig) r2
            = Throw ("sampleFromDistribution: unknown type '"
                +:+ Distribution.type (BlockConfig.iti blockConfig) +:+ "'"))
      as ->; [|done].
    unfold sampleFromDistribution, known_type in *.
    rewrite !bool_decide_eq_false_2 by tauto. done.
Qed.

Lemma block_configuration_errors_witness :
  generateBlockTrials
    (BlockConfig.mk (VStr "b") (VStr "pure") "single-task" (VStr "mov") VNull
       "Random" (Qc_of_Z 0) (VStr "mov") (num 200) (num 300) (num 2000)
       (VStr "identical") (mkQuad (frac 8 10) (num 0) (num 0) (num 0))
       (Congruency.mk ["univalent"] [Qc_of_Z 1])
       (Distribution.mk "gaussian" (num 500) None)
       (Distribution.mk "fixed" (num 0) (Some []))) 3 cycle_rng
  = Throw "sampleFromDistribution: unknown type 'gaussian'".
Proof.
  apply (block_configuration_errors
    (BlockConfig.mk (VStr "b") (VStr "pure") "single-task" (VStr "mov") VNull
       "Random" (Qc_of_Z 0) (VStr "mov") (num 200) (num 300) (num 2000)
       (VStr "identical") (mkQuad (frac 8 10) (num 0) (num 0) (num 0))
       (Congruency.mk ["univalent"] [Qc_of_Z 1])
       (Distribution.mk "gaussian" (num 500) None)
       (Distribution.mk "fixed" (num 0) (Some []))) 3 cycle_rng).
  - by left.
  - lia.
  - by intros [|[|]].
Defined.

(** [X20] With no trial to generate ([numTrials ≤ 0]) and a known sequence
    type the block is empty and nothing is sampled from the [iti] and [soa]
    distributions: a distribution of unknown type goes unnoticed. *)
Theorem empty_block_skips_sampling (blockConfig : BlockConfig.t)
    (numTrials : Z) (r : rng) :
  (numTrials ≤ 0)%Z →
  BlockConfig.sequenceType blockConfig = "Random"
  ∨ BlockConfig.sequenceType blockConfig = "AABB" →
  ∃ r', generateBlockTrials blockConfig numTrials r = Ok ([], r').
Proof.
  intros Hn Ht. unfold generateBlockTrials.
  unfold mbind at 1, gen_bind at 1.
  assert (∃ ts r1,
    (if bool_decide (BlockConfig.paradigm blockConfig = "dual-task")
     then generateTaskSequence numTrials
            (BlockConfig.sequenceType blockConfig)
            (BlockConfig.switchRate blockConfig)
            (BlockConfig.task1 blockConfig)
     else generateTaskSequence numTrials
            (BlockConfig.sequenceType blockConfig)
            (BlockConfig.switchRate blockConfig)
            (BlockConfig.startTask blockConfig)) r = Ok (ts, r1))
    as (ts & r1 & ->).
  { destruct (bool_decide _);
      edestruct generateTaskSequence_length as (ts & r1 & -> & _);
      eauto. }
  unfold mbind at 1, gen_bind at 1.
  edestruct generateCongruencySequence_perm as (cs & r2 & -> & _).
  replace (Z.to_nat numTrials) with 0%nat by lia. by exists r2.
Qed.

Lemma empty_block_skips_sampling_witness :
  ∃ r',
    generateBlockTrials
      (BlockConfig.mk (VStr "b") (VStr "pure") "single-task" (VStr "mov")
         VNull "Random" (Qc_of_Z 0) (VStr "mov") (num 200) (num 300)
         (num 2000) (VStr "identical")
         (mkQuad (frac 8 10) (num 0) (num 0) (num 0))
         (Congruency.mk ["univalent"] [Qc_of_Z 1])
         (Distribution.mk "gaussian" (num 500) None)
         (Distribution.mk "fixed" (num 0) (Some []))) 0 cycle_rng
    = Ok ([], r').
Proof.
  apply empty_block_skips_sampling; [lia|by left].
Defined.

(** The trial at index [j] of the loop's result is the one assembled for
    index [j]. *)
Lemma trialLoop_indexed blockConfig taskSequence transitions
    congruencySequence (P : nat → Trial → Prop) k i trials r trials' r' :
  (∀ j rj t rj',
     assembleTrial blockConfig taskSequence transitions congruencySequence
       j rj = Ok (t, rj') → P j t) →
  length trials = i →
  (∀ j t, trials !! j = Some t → P j t) →
  trialLoop blockConfig taskSequence transitions congruencySequence
    k i trials r = Ok (trials', r') →
  length trials' = (i + k)%nat ∧ ∀ j t, trials' !! j = Some t → P j t.
Proof.
  intros HP. revert i trials r.
  induction k as [|k IH]; intros i trials r Hlen Hacc; simpl.
  - intros [= <- _]. split; [lia|done].
  - intros (t & r1 & Ht & Hloop)%bind_Ok.
    eapply IH in Hloop as [Hl Hall].
    + split; [lia|done].
    + rewrite length_app. simpl. lia.
    + intros j t' Hj. destruct (decide (j < length trials)%nat).
      * rewrite lookup_app_l in Hj by lia. by apply Hacc.
      * apply lookup_lt_Some in Hj as Hj'. rewrite length_app in Hj'.
        simpl in Hj'. rewrite lookup_app_r in Hj by lia.
        replace (j - length trials)%nat with 0%nat in Hj by lia.
        injection Hj as <-. replace j with i by lia. by eapply HP.
Qed.

Lemma assembleTrial_meta blockConfig taskSequence transitions
    congruencySequence j r t r' :
  assembleTrial blockConfig taskSequence transitions congruencySequence j r
  = Ok (t, r') →
  Meta.trialNumber (meta t) = num (Z.of_nat j + 1)
  ∧ get (seParams t) "task_1" = Meta.task (meta t)
  ∧ Meta.paradigm (meta t) = VStr (BlockConfig.paradigm blockConfig)
  ∧ Meta.task (meta t) = arr_get id taskSequence (Z.of_nat j)
  ∧ Meta.transitionType (meta t) = arr_get id transitions (Z.of_nat j)
  ∧ Meta.congruency (meta t) = arr_get VStr congruencySequence (Z.of_nat j)
  ∧ Meta.previousCongruency (meta t)
    = (if bool_decide (0 < j)%nat
       then arr_get VStr congruencySequence (Z.of_nat j - 1) else VNull).
Proof.
  unfold assembleTrial.
  intros (iti & r1 & _ & (soa & r2 & _ & (dir & r3 & _ & [= <- _])%bind_Ok
                         )%bind_Ok)%bind_Ok.
  cbn [meta seParams Meta.trialNumber Meta.task Meta.paradigm
       Meta.transitionType Meta.congruency Meta.previousCongruency].
  split_and!; try done. by rewrite_tasks.
Qed.

Lemma generateTaskSequence_long numTrials sequenceType switchRate
    startTask r sequence r' :
  generateTaskSequence numTrials sequenceType switchRate startTask r
  = Ok (sequence, r') →
  (Z.to_nat numTrials ≤ length sequence)%nat.
Proof.
  intros H.
  destruct (decide (sequenceType = "Random" ∨ sequenceType = "AABB"))
    as [Ht|Ht].
  - destruct (generateTaskSequence_length numTrials sequenceType switchRate
                startTask r Ht) as (s & r1 & Hs & Hl).
    rewrite Hs in H. injection H as <- _. lia.
  - rewrite generateTaskSequence_unfold in H.
    destruct (firstTask startTask r).
    rewrite !bool_decide_eq_false_2 in H by tauto. done.
Qed.

(** [X21] The metadata of a generated block is consistent along the block:
    the trial at index [i] has [trialNumber = i + 1], its [meta.task] is the
    [task_1] of its SE parameters, its paradigm is the block's; the first
    trial has transition 'First' and no previous congruency; every later
    trial has transition 'Repeat' when its task is strictly equal to the
    previous trial's task and 'Switch' otherwise, and its previous
    congruency is the previous trial's congruency. *)
Theorem block_metadata_consistent (blockConfig : BlockConfig.t)
    (numTrials : Z) (r : rng) (trials : list Trial) (r' : rng) :
  generateBlockTrials blockConfig numTrials r = Ok (trials, r') →
  ∀ i t, trials !! i = Some t →
    Meta.trialNumber (meta t) = num (Z.of_nat i + 1)
    ∧ get (seParams t) "task_1" = Meta.task (meta t)
    ∧ Meta.paradigm (meta t) = VStr (BlockConfig.paradigm blockConfig)
    ∧ (i = 0%nat →
       Meta.transitionType (meta t) = VStr "First"
       ∧ Meta.previousCongruency (meta t) = VNull)
    ∧ (∀ j t0, i = S j → trials !! j = Some t0 →
       Meta.transitionType (meta t)
       = (if js_seq (Meta.task (meta t)) (Meta.task (meta t0))
          then VStr "Repeat" else VStr "Switch")
       ∧ Meta.previousCongruency (meta t) = Meta.congruency (meta t0)).
Proof.
  unfold generateBlockTrials.
  intros (ts & r1 & Hts & (cs & r2 & Hcs & Hloop)%bind_Ok)%bind_Ok.
  assert (Z.to_nat numTrials ≤ length ts)%nat as Hlen.
  { destruct (bool_decide _); by eapply generateTaskSequence_long. }
  eapply (trialLoop_indexed _ _ _ _ (λ j t, _)) in Hloop as [Hn Hall];
    [|intros j rj t rj' H; exact (assembleTrial_meta _ _ _ _ _ _ _ _ H)
     |done|done].
  intros i t Hi.
  destruct (Hall i t Hi) as (H1 & H2 & H3 & H4 & H5 & H6 & H7).
  apply lookup_lt_Some in Hi as Hi'.
  destruct (lookup_lt_is_Some_2 ts i) as [task Htask]; [lia|].
  split_and!; [done..| |].
  - intros ->. split; [|done]. rewrite H5. unfold classifyTransitions.
    apply arr_get_lookup. by rewrite list_lookup_imap, Htask.
  - intros j t0 -> Hj.
    destruct (Hall j t0 Hj) as (_ & _ & _ & H4' & _ & H6' & _).
    destruct (lookup_lt_is_Some_2 ts j) as [task0 Htask0]; [lia|].
    split.
    + rewrite H5, H4, H4'.
      rewrite (arr_get_lookup _ _ _ Htask), (arr_get_lookup _ _ _ Htask0).
      unfold classifyTransitions. apply arr_get_lookup.
      rewrite list_lookup_imap, Htask. simpl.
      replace (Z.of_nat (S j) - 1)%Z with (Z.of_nat j) by lia.
      by rewrite (arr_get_lookup _ _ _ Htask0).
    + rewrite H7, H6', bool_decide_eq_true_2 by lia.
      by replace (Z.of_nat (S j) - 1)%Z with (Z.of_nat j) by lia.
Qed.

Lemma block_metadata_consistent_witness :
  ∃ trials r',
    generateBlockTrials pureConfig 3 cycle_rng = Ok (trials, r')
    ∧ ∀ i t, trials !! i = Some t →
             Meta.trialNumber (meta t) = num (Z.of_nat i + 1)
             ∧ Meta.paradigm (meta t) = VStr "single-task".
Proof.
  destruct (returns_generateBlockTrials pureConfig 3) with (r := cycle_rng)
    as (trials & r' & E).
  { split_and!; [by left|by left|done]. }
  exists trials, r'. split; [done|]. intros i t Hi.
  by destruct (block_metadata_consistent pureConfig 3 cycle_rng trials r' E
                 i t Hi) as (H1 & _ & H3 & _).
Defined.

(** * Properties of response extraction (session.js) *)

Section tally.
Context (isDualTask : bool).

Lemma tally_wrong_first t kp :
  wrong kp → Tally.rt1_raw t = VNull →
  tallyPress isDualTask t kp
  = Tally.mk VNull (Tally.rt2_raw t) (VStr "error") (Tally.accuracy2 t) true.
Proof. intros Hw Hr. unfold tallyPress. by rewrite Hw, Hr. Qed.

Lemma tally_errors errs t :
  Forall wrong errs → errs ≠ [] → Tally.rt1_raw t = VNull →
  fold_left (tallyPress isDualTask) errs t
  = Tally.mk VNull (Tally.rt2_raw t) (VStr "error") (Tally.accuracy2 t) true.
Proof.
  revert t. induction errs as [|kp errs IH]; intros t Hw Hne Hr; [done|].
  apply Forall_cons in Hw as [Hkp Hw]. cbn [fold_left].
  rewrite (tally_wrong_first _ _ Hkp Hr).
  destruct errs as [|kp' errs]; [done|]. by rewrite IH.
Qed.

Lemma tally_correct_first t kp :
  KeyPress.isCorrect kp = true → Tally.rt1_raw t = VNull →
  tallyPress isDualTask t kp
  = Tally.mk (VNum (KeyPress.time kp)) (Tally.rt2_raw t)
      (if Tally.hadError1 t then VStr "corrected" else VStr "correct")
      (Tally.accuracy2 t) (Tally.hadError1 t).
Proof. intros Hc Hr. unfold tallyPress. by rewrite Hc, Hr. Qed.

(** Once the first response is in, later key presses leave it alone. *)
Lemma tally_first_kept kps t q :
  Tally.rt1_raw t = VNum q →
  Tally.rt1_raw (fold_left (tallyPress isDualTask) kps t) = VNum q
  ∧ Tally.accuracy1 (fold_left (tallyPress isDualTask) kps t)
    = Tally.accuracy1 t.
Proof.
  revert t. induction kps as [|kp kps IH]; intros t Hr; [done|].
  cbn [fold_left].
  assert (Tally.rt1_raw (tallyPress isDualTask t kp) = VNum q
          ∧ Tally.accuracy1 (tallyPress isDualTask t kp) = Tally.accuracy1 t)
    as [H1 H2].
  { unfold tallyPress. rewrite Hr.
    change (js_seq (VNum q) VNull) with false. cbv iota.
    by repeat case_match. }
  destruct (IH _ H1) as [-> ->]. done.
Qed.

(** The state after an optional run of wrong presses and the first correct
    one. *)
Lemma tally_first_response errs kp :
  Forall wrong errs → KeyPress.isCorrect kp = true →
  fold_left (tallyPress isDualTask) (errs ++ [kp]) (tallyStart isDualTask)
  = Tally.mk (VNum (KeyPress.time kp)) VNull
      (match errs with [] => VStr "correct" | _ => VStr "corrected" end)
      (if isDualTask then VStr "miss" else VNull)
      (match errs with [] => false | _ => true end).
Proof.
  intros Hw Hc. rewrite fold_left_app. cbn [fold_left].
  destruct errs as [|e errs].
  - by rewrite tally_correct_first.
  - rewrite tally_errors by done. by rewrite tally_correct_first.
Qed.
End tally.

Lemma tally_single_done kps t q :
  Tally.rt1_raw t = VNum q →
  fold_left (tallyPress false) kps t = t.
Proof.
  intros Hr. induction kps as [|kp kps IH]; [done|]. cbn [fold_left].
  replace (tallyPress false t kp) with t; [done|].
  unfold tallyPress. rewrite Hr. by destruct (KeyPress.isCorrect kp).
Qed.

Lemma tally_dual_done kps t q1 q2 :
  Tally.rt1_raw t = VNum q1 → Tally.rt2_raw t = VNum q2 →
  fold_left (tallyPress true) kps t = t.
Proof.
  intros H1 H2. induction kps as [|kp kps IH]; [done|]. cbn [fold_left].
  replace (tallyPress true t kp) with t; [done|].
  unfold tallyPress. rewrite H1, H2. by destruct (KeyPress.isCorrect kp).
Qed.

Lemma tally_dual_errors errs t q :
  Tally.rt1_raw t = VNum q → Tally.rt2_raw t = VNull →
  Forall wrong errs → errs ≠ [] →
  fold_left (tallyPress true) errs t
  = Tally.mk (Tally.rt1_raw t) VNull (Tally.accuracy1 t) (VStr "error")
      (Tally.hadError1 t).
Proof.
  revert t. induction errs as [|kp errs IH]; intros t H1 H2 Hw Hne; [done|].
  apply Forall_cons in Hw as [Hkp Hw]. cbn [fold_left].
  assert (tallyPress true t kp
          = Tally.mk (Tally.rt1_raw t) VNull (Tally.accuracy1 t)
              (VStr "error") (Tally.hadError1 t)) as ->.
  { unfold tallyPress. by rewrite Hkp, H1, H2. }
  destruct errs as [|kp' errs]; [done|]. by rewrite IH.
Qed.

Lemma tally_dual_second t kp q :
  Tally.rt1_raw t = VNum q → Tally.rt2_raw t = VNull →
  KeyPress.isCorrect kp = true →
  tallyPress true t kp
  = Tally.mk (Tally.rt1_raw t) (VNum (KeyPress.time kp)) (Tally.accuracy1 t)
      (VStr "correct") (Tally.hadError1 t).
Proof. intros H1 H2 Hc. unfold tallyPress. by rewrite Hc, H1, H2. Qed.

(** [X22] Without a correct key press nothing is timed: both raw and
    relative reaction times are [null]; [accuracy1] is 'miss' when there was
    no key press at all (or no [keyPresses] property) and 'error' otherwise;
    the second task is never scored before the first response, so
    [accuracy2] stays 'miss' in a dual-task trial and [null] in any other. *)
Theorem no_correct_response (stringify : list KeyPress.t → string)
    (keyPresses : option (list KeyPress.t)) (trial : Trial) :
  Forall wrong (default [] keyPresses) →
  let response := extractResponse stringify keyPresses trial in
  Response.rt1_raw response = VNull
  ∧ Response.rt1 response = VNull
  ∧ Response.accuracy1 response
    = (match default [] keyPresses with
       | [] => VStr "miss" | _ => VStr "error" end)
  ∧ Response.rt2_raw response = VNull
  ∧ Response.rt2 response = VNull
  ∧ Response.accuracy2 response
    = (if js_seq (Meta.paradigm (meta trial)) (VStr "dual-task")
       then VStr "miss" else VNull).
Proof.
  intros Hw. unfold extractResponse. cbv zeta.
  destruct (default [] keyPresses) as [|kp kps] eqn:E.
  - cbn. by rewrite andb_false_r.
  - rewrite tally_errors by done. cbn. by rewrite andb_false_r.
Qed.

Lemma no_correct_response_witness :
  Response.accuracy1
    (extractResponse (λ _, "")
       (Some [KeyPress.mk false (Qc_of_Z 700)]) (mkTrial ∅
          (Meta.mk (num 1) VNull VNull (VStr "single-task") (VStr "mov")
             VNull (VStr "First") (VStr "univalent") VNull (num 500) VNull
             (num 0) VNull VNull)))
  = VStr "error".
Proof.
  by destruct (no_correct_response (λ _, "") (Some [KeyPress.mk false (Qc_of_Z 700)])
    (mkTrial ∅
       (Meta.mk (num 1) VNull VNull (VStr "single-task") (VStr "mov")
          VNull (VStr "First") (VStr "univalent") VNull (num 500) VNull
          (num 0) VNull VNull))) as (_ & _ & H & _);
    [by repeat constructor|].
Defined.

(** [X23] The first correct key press is the first response, whatever
    follows it: [rt1_raw] is its time, [rt1] is that time minus
    [start_go_1], and [accuracy1] is 'correct' when no wrong key press came
    before it and 'corrected' when one did. *)
Theorem first_response (stringify : list KeyPress.t → string)
    (errs rest : list KeyPress.t) (kp : KeyPress.t) (trial : Trial) :
  Forall wrong errs →
  KeyPress.isCorrect kp = true →
  let response :=
    extractResponse stringify (Some (errs ++ kp :: rest)%list) trial in
  Response.rt1_raw response = VNum (KeyPress.time kp)
  ∧ Response.rt1 response
    = js_sub (VNum (KeyPress.time kp)) (get (seParams trial) "start_go_1")
  ∧ Response.accuracy1 response
    = (match errs with [] => VStr "correct" | _ => VStr "corrected" end).
Proof.
  intros Hw Hc. unfold extractResponse. cbv zeta. cbn [default].
  unfold id. rewrite (cons_middle kp), app_assoc, fold_left_app.
  rewrite (tally_first_response _ _ _ Hw Hc).
  match goal with
  | |- context [fold_left _ rest ?t] =>
      destruct (tally_first_kept
                  (js_seq (Meta.paradigm (meta trial)) (VStr "dual-task"))
                  rest t (KeyPress.time kp) eq_refl) as [H1 H2]
  end.
  cbn [Response.rt1_raw Response.rt1 Response.accuracy1].
  rewrite H1, H2. done.
Qed.

Lemma first_response_witness :
  Response.accuracy1
    (extractResponse (λ _, "")
       (Some [KeyPress.mk false (Qc_of_Z 400); KeyPress.mk true (Qc_of_Z 700)])
       (mkTrial ∅
          (Meta.mk (num 1) VNull VNull (VStr "single-task") (VStr "mov")
             VNull (VStr "First") (VStr "univalent") VNull (num 500) VNull
             (num 0) VNull VNull)))
  = VStr "corrected".
Proof.
  by destruct (first_response (λ _, "") [KeyPress.mk false (Qc_of_Z 400)] []
    (KeyPress.mk true (Qc_of_Z 700))
    (mkTrial ∅
       (Meta.mk (num 1) VNull VNull (VStr "single-task") (VStr "mov")
          VNull (VStr "First") (VStr "univalent") VNull (num 500) VNull
          (num 0) VNull VNull))) as (_ & _ & H);
    [by repeat constructor|done|].
Defined.

Lemma tally_single_second kps t :
  Tally.rt2_raw (fold_left (tallyPress false) kps t) = Tally.rt2_raw t
  ∧ Tally.accuracy2 (fold_left (tallyPress false) kps t) = Tally.accuracy2 t.
Proof.
  revert t. induction kps as [|kp kps IH]; intros t; [done|].
  cbn [fold_left]. destruct (IH (tallyPress false t kp)) as [-> ->].
  unfold tallyPress. by repeat case_match.
Qed.

(** [X24] In a trial whose paradigm is not 'dual-task' no second response
    is ever extracted: [rt2_raw], [rt2] and [accuracy2] are [null] for every
    list of key presses. *)
Theorem single_task_no_second_response
    (stringify : list KeyPress.t → string)
    (keyPresses : option (list KeyPress.t)) (trial : Trial) :
  js_seq (Meta.paradigm (meta trial)) (VStr "dual-task") = false →
  let response := extractResponse stringify keyPresses trial in
  Response.rt2_raw response = VNull
  ∧ Response.rt2 response = VNull
  ∧ Response.accuracy2 response = VNull.
Proof.
  intros Hp. unfold extractResponse. cbv zeta. rewrite Hp.
  cbn [Response.rt2_raw Response.rt2 Response.accuracy2 andb].
  by destruct (tally_single_second (default [] keyPresses) (tallyStart false))
    as [-> ->].
Qed.

Lemma single_task_no_second_response_witness :
  Response.accuracy2
    (extractResponse (λ _, "")
       (Some [KeyPress.mk true (Qc_of_Z 400); KeyPress.mk true (Qc_of_Z 700)])
       (mkTrial ∅
          (Meta.mk (num 1) VNull VNull (VStr "single-task") (VStr "mov")
             VNull (VStr "First") (VStr "univalent") VNull (num 500) VNull
             (num 0) VNull VNull)))
  = VNull.
Proof.
  by destruct (single_task_no_second_response (λ _, "")
    (Some [KeyPress.mk true (Qc_of_Z 400); KeyPress.mk true (Qc_of_Z 700)])
    (mkTrial ∅
       (Meta.mk (num 1) VNull VNull (VStr "single-task") (VStr "mov")
          VNull (VStr "First") (VStr "univalent") VNull (num 500) VNull
          (num 0) VNull VNull))) as (_ & _ & H).
Defined.

(** [X25] In a dual-task trial the second correct key press is the second
    response, whatever follows it: [rt2_raw] is its time, [rt2] is that time
    minus [start_go_2], and [accuracy2] is 'correct' even when wrong key
    presses came between the two responses (there is no 'corrected' for the
    second task). *)
Theorem second_response (stringify : list KeyPress.t → string)
    (errs errs2 rest : list KeyPress.t) (kp1 kp2 : KeyPress.t)
    (trial : Trial) :
  Meta.paradigm (meta trial) = VStr "dual-task" →
  Forall wrong errs → KeyPress.isCorrect kp1 = true →
  Forall wrong errs2 → KeyPress.isCorrect kp2 = true →
  let response :=
    extractResponse stringify
      (Some (errs ++ kp1 :: errs2 ++ kp2 :: rest)%list) trial in
  Response.rt2_raw response = VNum (KeyPress.time kp2)
  ∧ Response.rt2 response
    = js_sub (VNum (KeyPress.time kp2)) (get (seParams trial) "start_go_2")
  ∧ Response.accuracy2 response = VStr "correct".
Proof.
  intros Hp Hw1 Hc1 Hw2 Hc2. unfold extractResponse. cbv zeta. rewrite Hp.
  change (js_seq (VStr "dual-task") (VStr "dual-task")) with true.
  cbn [default]. unfold id.
  rewrite (cons_middle kp1), app_assoc, fold_left_app.
  rewrite (tally_first_response _ _ _ Hw1 Hc1).
  rewrite fold_left_app. cbn [fold_left].
  set (t1 := Tally.mk (VNum (KeyPress.time kp1)) VNull _ _ _).
  assert (∃ t2, fold_left (tallyPress true) errs2 t1 = t2
                ∧ Tally.rt1_raw t2 = VNum (KeyPress.time kp1)
                ∧ Tally.rt2_raw t2 = VNull) as (t2 & -> & H1 & H2).
  { destruct errs2 as [|e errs2]; [by exists t1|].
    eexists. split; [by eapply tally_dual_errors|done]. }
  rewrite (tally_dual_second _ _ _ H1 H2 Hc2).
  erewrite tally_dual_done by done. done.
Qed.

Lemma second_response_witness :
  Response.accuracy2
    (extractResponse (λ _, "")
       (Some [KeyPress.mk true (Qc_of_Z 400); KeyPress.mk false (Qc_of_Z 600);
              KeyPress.mk true (Qc_of_Z 900)])
       (mkTrial ∅
          (Meta.mk (num 1) VNull VNull (VStr "dual-task") (VStr "mov")
             (VStr "or") (VStr "First") (VStr "univalent") VNull (num 500)
             (num 100) (num 0) VNull (num 0))))
  = VStr "correct".
Proof.
  by destruct (second_response (λ _, "") [] [KeyPress.mk false (Qc_of_Z 600)] []
    (KeyPress.mk true (Qc_of_Z 400)) (KeyPress.mk true (Qc_of_Z 900))
    (mkTrial ∅
       (Meta.mk (num 1) VNull VNull (VStr "dual-task") (VStr "mov")
          (VStr "or") (VStr "First") (VStr "univalent") VNull (num 500)
          (num 100) (num 0) VNull (num 0)))) as (_ & _ & H);
    [done|done|done|by repeat constructor|done|].
Defined.

(** [X26] In a dual-task trial with a first response but no later correct
    key press, the second task is untimed ([rt2_raw] and [rt2] are [null])
    and [accuracy2] is 'miss' when nothing was pressed after the first
    response and 'error' when something was. *)
Theorem second_response_missing (stringify : list KeyPress.t → string)
    (errs errs2 : list KeyPress.t) (kp1 : KeyPress.t) (trial : Trial) :
  Meta.paradigm (meta trial) = VStr "dual-task" →
  Forall wrong errs → KeyPress.isCorrect kp1 = true →
  Forall wrong errs2 →
  let response :=
    extractResponse stringify (Some (errs ++ kp1 :: errs2)%list) trial in
  Response.rt2_raw response = VNull
  ∧ Response.rt2 response = VNull
  ∧ Response.accuracy2 response
    = (match errs2 with [] => VStr "miss" | _ => VStr "error" end).
Proof.
  intros Hp Hw1 Hc1 Hw2. unfold extractResponse. cbv zeta. rewrite Hp.
  change (js_seq (VStr "dual-task") (VStr "dual-task")) with true.
  cbn [default]. unfold id.
  rewrite (cons_middle kp1), app_assoc, fold_left_app.
  rewrite (tally_first_response _ _ _ Hw1 Hc1).
  destruct errs2 as [|e errs2]; [done|].
  by erewrite tally_dual_errors.
Qed.

Lemma second_response_missing_witness :
  Response.accuracy2
    (extractResponse (λ _, "")
       (Some [KeyPress.mk true (Qc_of_Z 400); KeyPress.mk false (Qc_of_Z 600)])
       (mkTrial ∅
          (Meta.mk (num 1) VNull VNull (VStr "dual-task") (VStr "mov")
             (VStr "or") (VStr "First") (VStr "univalent") VNull (num 500)
             (num 100) (num 0) VNull (num 0))))
  = VStr "error".
Proof.
  by destruct (second_response_missing (λ _, "") [] [KeyPress.mk false (Qc_of_Z 600)]
    (KeyPress.mk true (Qc_of_Z 400))
    (mkTrial ∅
       (Meta.mk (num 1) VNull VNull (VStr "dual-task") (VStr "mov")
          (VStr "or") (VStr "First") (VStr "univalent") VNull (num 500)
          (num 100) (num 0) VNull (num 0)))) as (_ & _ & H);
    [done|done|done|by repeat constructor|].
Defined.

(** * Channel-2 placement in a dual-task block *)

Lemma other_involutive d : other (other d) = d.
Proof. by destruct d. Qed.

Lemma routed_timing_ch2 spec d :
  TrialSpec.task2 spec ≠ VNull →
  get (routedParams spec) (field "dur" d Ch2) = TrialSpec.dur_ch2 spec.
Proof.
  intros Ht. apply js_seq_false in Ht.
  assert (buildTimingParams spec !! field "dur" d Ch2
          = Some (TrialSpec.dur_ch2 spec)) as H.
  { unfold buildTimingParams. rewrite Ht. destruct d; by vm_compute. }
  unfold get, routedParams, spread.
  rewrite lookup_union_r by (apply direction_absent; by destruct d).
  rewrite lookup_union_r by (apply coherence_absent; by destruct d).
  by rewrite (lookup_union_Some_l _ _ _ _ H).
Qed.

Lemma silenced_ch2_active spec d :
  TrialSpec.task2 spec ≠ VNull →
  js_seq (get (routedParams spec) (field "coh" d Ch2)) (num 0) = false →
  get (silencedParams spec) (field "dur" d Ch2) = TrialSpec.dur_ch2 spec.
Proof.
  intros Ht Hc. rewrite <-(routed_timing_ch2 spec d Ht).
  unfold silencedParams. destruct d; fields.
  - rewrite (silence_other _ _ _ _ "dur_mov_2") by done.
    rewrite silence_inactive by (by rewrite !silence_other).
    by rewrite !silence_other.
  - rewrite silence_inactive by (by rewrite !silence_other).
    by rewrite !silence_other.
Qed.

(** A univalent dual-task trial: the pathway of the second task starts at
    [csi + soa] and the other channel-2 pathway is zeroed. *)
Lemma univalent_dual_placement spec d :
  TrialSpec.task1 spec = VStr (dimension_name (other d)) →
  TrialSpec.task2 spec = VStr (dimension_name d) →
  numeric (TrialSpec.csi spec) →
  numeric (TrialSpec.soa spec) →
  ch1_distractor (TrialSpec.coherence spec) = num 0 →
  ch2_distractor (TrialSpec.coherence spec) = num 0 →
  js_seq (ch2_task (TrialSpec.coherence spec)) (num 0) = false →
  js_gt (TrialSpec.dur_ch2 spec) (num 0) = true →
  get (buildTrialParams spec) (field "start" d Ch2)
  = js_add (TrialSpec.csi spec) (TrialSpec.soa spec)
  ∧ get (buildTrialParams spec) (field "start" (other d) Ch2) = num 0.
Proof.
  intros H1 H2 Hcsi Hsoa Hd1 Hd2 Hc2 Hdur.
  assert (TrialSpec.task2 spec ≠ VNull) as Hnn by (by rewrite H2).
  assert (∀ d' c, get (routedParams spec) (field "coh" d' c)
                  = default VUndefined
                      (buildCoherenceParams spec !! field "coh" d' c)) as Hr.
  { intros d' c. rewrite <-silenced_coh, <-built_other by (by destruct d', c).
    unfold get. by rewrite built_coh_lookup. }
  destruct (coherence_routed spec Ch1 (other d) H1) as [_ Hd1'].
  destruct (coherence_routed spec Ch2 d H2) as [Ht2' Hd2'].
  rewrite other_involutive in Hd1'. cbn [task_slot distractor_slot] in *.
  split.
  - rewrite built_start_ch2; [|done|].
    + destruct (silenced_zero spec d Ch1) as [-> ->].
      { by rewrite Hr, Hd1'. }
      apply sub_zero_end. by apply numeric_add.
    + rewrite silenced_ch2_active; [done..|]. by rewrite Hr, Ht2'.
  - destruct (silenced_zero spec (other d) Ch2) as [Hs Hz].
    { by rewrite Hr, Hd2'. }
    by rewrite built_silent_ch2.
Qed.

(** The trial loop with the index range and the contract of the draws at
    hand for every assembled trial. *)
Lemma trialLoop_lookup blockConfig taskSequence transitions
    congruencySequence (P : Trial → Prop) k i trials r trials' r' :
  (∀ j rj t rj', unit_rng rj → (j < i + k)%nat →
     assembleTrial blockConfig taskSequence transitions congruencySequence
       j rj = Ok (t, rj') → P t) →
  unit_rng r →
  length trials = i →
  Forall P trials →
  trialLoop blockConfig taskSequence transitions congruencySequence
    k i trials r = Ok (trials', r') →
  Forall P trials'.
Proof.
  revert i trials r.
  induction k as [|k IH]; intros i trials r HP Hr Hlen Hacc; simpl.
  - by intros [= <- _].
  - intros (t & r1 & Ht & Hloop)%bind_Ok.
    eapply IH in Hloop; [done| | | |].
    + intros j rj t' rj' ? ? ?. eapply HP; [done| |done]. lia.
    + eapply suffix_unit; [done|]. by eapply streaming_assembleTrial.
    + rewrite length_app. simpl. lia.
    + apply Forall_app. split; [done|]. apply Forall_singleton.
      eapply HP; [done| |done]. lia.
Qed.

(** [X27] In a dual-task block of univalent trials (both distractor
    coherences 0, a non-zero task coherence on channel 2, a positive
    stimulus duration, a numeric [csi], an SOA drawn from a non-empty
    'choice' list, and a block task that is 'mov', 'or' or [null]), every
    generated trial places the pathway of its second task at
    [csi + meta.soa] and leaves the other channel-2 pathway at 0. *)
Theorem dual_block_places_second_task (blockConfig : BlockConfig.t)
    (numTrials : Z) (r : rng) (trials : list Trial) (r' : rng)
    (ps : list Qc) :
  unit_rng r →
  BlockConfig.paradigm blockConfig = "dual-task" →
  BlockConfig.task1 blockConfig = VNull
  ∨ is_task (BlockConfig.task1 blockConfig) →
  numeric (BlockConfig.csi blockConfig) →
  js_gt (BlockConfig.stimulusDuration blockConfig) (num 0) = true →
  ch1_distractor (BlockConfig.coherence blockConfig) = num 0 →
  ch2_distractor (BlockConfig.coherence blockConfig) = num 0 →
  js_seq (ch2_task (BlockConfig.coherence blockConfig)) (num 0) = false →
  Distribution.type (BlockConfig.soa blockConfig) = "choice" →
  Distribution.params (BlockConfig.soa blockConfig) = Some ps →
  ps ≠ [] →
  generateBlockTrials blockConfig numTrials r = Ok (trials, r') →
  Forall (λ t, ∃ d,
            Meta.task2 (meta t) = VStr (dimension_name d)
            ∧ get (seParams t) (field "start" d Ch2)
              = js_add (BlockConfig.csi blockConfig) (Meta.soa (meta t))
            ∧ get (seParams t) (field "start" (other d) Ch2) = num 0)
         trials.
Proof.
  intros Hr Hp Ht1 Hcsi Hdur Hd1 Hd2 Hc2 Hty Hps Hne.
  unfold generateBlockTrials. rewrite Hp. eval_types.
  intros (ts & r1 & Hts & (cs & r2 & Hcs & Hloop)%bind_Ok)%bind_Ok.
  assert (Forall is_task ts ∧ (Z.to_nat numTrials ≤ length ts)%nat)
    as [Htasks Hlen].
  { split; [|by eapply generateTaskSequence_long].
    destruct (decide (BlockConfig.sequenceType blockConfig = "Random"
                      ∨ BlockConfig.sequenceType blockConfig = "AABB"))
      as [Hs|Hs].
    - destruct (generateTaskSequence_tasks numTrials
                  (BlockConfig.sequenceType blockConfig)
                  (BlockConfig.switchRate blockConfig)
                  (BlockConfig.task1 blockConfig) r Hr)
        as (s & r0 & Hs' & HP); [tauto|done|].
      rewrite Hs' in Hts. by injection Hts as <- _.
    - rewrite generateTaskSequence_unfold in Hts.
      destruct (firstTask _ r).
      by rewrite !bool_decide_eq_false_2 in Hts by tauto. }
  assert (unit_rng r2) as Hr2.
  { eapply suffix_unit; [done|].
    eapply suffix_trans; [|by eapply streaming_generateCongruencySequence].
    by eapply streaming_generateTaskSequence. }
  eapply trialLoop_lookup in Hloop; [done| |done..].
  intros j rj t rj' Hrj Hj. unfold assembleTrial. rewrite Hp. eval_types.
  intros (iti & r3 & Hiti & (soa & r4 & Hsoa & (dir & r5 & _ & [= <- _]
                                               )%bind_Ok)%bind_Ok)%bind_Ok.
  apply streaming_sampleFromDistribution in Hiti.
  destruct (sample_choice (BlockConfig.soa blockConfig) r3 ps)
    as (x & Hx & _); [by eapply suffix_unit|done..|].
  rewrite Hx in Hsoa. injection Hsoa as <- _.
  destruct (lookup_lt_is_Some_2 ts j) as [task Htask]; [lia|].
  rewrite (arr_get_lookup _ _ _ Htask).
  assert (is_task task) as Hk.
  { rewrite Forall_forall in Htasks. apply Htasks.
    by eapply list_elem_of_lookup_2. }
  cbn [meta seParams Meta.task2 Meta.soa js_nullish].
  assert (∃ d, task = VStr (dimension_name (other d))
               ∧ switchTask task = VStr (dimension_name d)) as (d & E1 & E2).
  { destruct Hk as [-> | ->]; [by exists Ori|by exists Mov]. }
  exists d. split; [done|].
  apply univalent_dual_placement; try done. by eexists.
Qed.

Lemma dual_block_places_second_task_witness :
  ∃ trials r',
    generateBlockTrials prpConfig 24 cycle_rng = Ok (trials, r')
    ∧ Forall (λ t, ∃ d,
                Meta.task2 (meta t) = VStr (dimension_name d)
                ∧ get (seParams t) (field "start" d Ch2)
                  = js_add (num 200) (Meta.soa (meta t))
                ∧ get (seParams t) (field "start" (other d) Ch2) = num 0)
             trials.
Proof.
  destruct (returns_generateBlockTrials prpConfig 24) with (r := cycle_rng)
    as (trials & r' & E).
  { split_and!; [by left|right; by left|intros _; right; by right]. }
  exists trials, r'. split; [done|].
  by apply (dual_block_places_second_task prpConfig 24 cycle_rng trials r'
              (Qc_of_Z <$> [50; 100; 200; 400; 600; 1000]%Z)
              cycle_rng_unit);
    [|right; by left|eexists|..].
Defined.
